(** * rmwspy/spectralsim.py: the spectral random-field generator

    A shallow embedding of the class [spectral_random_field] and the proofs
    of its specification.

    Conventions of the embedding.
    - A Python [int] and an entry of a numpy integer array are a [Z].  The
      integers the constructor computes are extents, coordinates, sums of
      squared coordinates and the element count of an array it allocates;
      they are taken to stay inside numpy's int64, so no wrap-around is
      written.  (The element count of an allocated array does; the squared
      coordinates do on axes shorter than 2^32.)
    - The Python [float] returned by the range lookup is a rational [Q], and
      the float operations of the padder ([+], [/8.], [ceil], [*8.]) are the
      exact ones.  Of the four only the sum can round in binary64.
    - The entries of the float and complex arrays belong to the abstract
      types of the class [numpy]; their arithmetic, the transform pair and
      the random generator are its operations.  The module [binary64] gives
      an instance that computes.
    - A Python exception is [None] in the error monad.
    - [self] is a record; a method takes the record and returns the new one
      next to its result.  An attribute that is not set yet is [None].
    - [np.int] is Python's [int], as it was in the numpy the source was
      written for. *)

From Stdlib Require Import List ZArith QArith Qround Lia Lqa Bool Floats.
From Stdlib Require String.
Import ListNotations.

Set Implicit Arguments.
Set Default Goal Selector "!".

(** ** Exceptions *)

Definition raise {A : Type} : option A := None.

Definition bind {A B : Type} (m : option A) (k : A -> option B) : option B :=
  match m with
  | Some x => k x
  | None => None
  end.

Declare Scope py_scope.
Delimit Scope py_scope with py.
Notation "x <- m ;; k" := (bind m (fun x => k))
  (at level 61, m at next level, right associativity) : py_scope.
Notation "' p <- m ;; k" := (bind m (fun x => let p := x in k))
  (at level 61, p pattern, m at next level, right associativity) : py_scope.
Local Open Scope py_scope.

(** [for _ in range(n): x = f(x)] *)
Fixpoint for_range {A : Type} (n : nat) (f : A -> option A) (x : A) : option A :=
  match n with
  | O => Some x
  | S n' => y <- f x ;; for_range n' f y
  end.

(** ** numpy's ndarray

    An array is its shape and its entries in C (row-major) order. *)

Record ndarray (A : Type) : Type := mk_ndarray {
  shape : list nat;
  data : list A
}.

Arguments mk_ndarray {A} shape data.

Module np.

Definition prod (s : list nat) : nat := fold_right Nat.mul 1%nat s.

(** Every index of an array of shape [s], in C order. *)
Fixpoint ndindex (s : list nat) : list (list nat) :=
  match s with
  | [] => [[]]
  | n :: rest => flat_map (fun i => map (cons i) (ndindex rest)) (seq 0 n)
  end.

(** The offset of an index in the entries. *)
Fixpoint ravel (s idx : list nat) : nat :=
  match s, idx with
  | _ :: rest, i :: idx' => (i * prod rest + ravel rest idx')%nat
  | _, _ => 0%nat
  end.

(** [a[idx]], for an index inside the shape. *)
Definition get {A} (d : A) (a : ndarray A) (idx : list nat) : A :=
  nth (ravel (shape a) idx) (data a) d.

(** The array of shape [s] whose entry at [idx] is [f idx]. *)
Definition tabulate {A} (s : list nat) (f : list nat -> A) : ndarray A :=
  mk_ndarray s (map f (ndindex s)).

(** [np.array(l)] for a flat sequence, and a Python scalar seen as an
    operand (a zero-dimensional array). *)
Definition array {A} (l : list A) : ndarray A := mk_ndarray [length l] l.

Definition scalar {A} (x : A) : ndarray A := mk_ndarray [] [x].

(** A unary ufunc. *)
Definition map {A B} (f : A -> B) (a : ndarray A) : ndarray B :=
  mk_ndarray (shape a) (List.map f (data a)).

(** Broadcasting: the shapes are aligned on their last axes, a missing or
    unit axis is stretched. *)
Definition pad_left (n : nat) (s : list nat) : list nat :=
  repeat 1%nat (n - length s) ++ s.

Definition broadcast_dim (a b : nat) : option nat :=
  if Nat.eqb a b then Some a
  else if Nat.eqb a 1 then Some b
  else if Nat.eqb b 1 then Some a
  else raise.

Fixpoint broadcast_dims (s t : list nat) : option (list nat) :=
  match s, t with
  | a :: s', b :: t' =>
      c <- broadcast_dim a b ;;
      r <- broadcast_dims s' t' ;;
      Some (c :: r)
  | _, _ => Some []
  end.

Definition broadcast_shapes (s t : list nat) : option (list nat) :=
  let n := Nat.max (length s) (length t) in
  broadcast_dims (pad_left n s) (pad_left n t).

Fixpoint clamp_index (s idx : list nat) : list nat :=
  match s, idx with
  | n :: s', i :: idx' => (if Nat.eqb n 1 then 0%nat else i) :: clamp_index s' idx'
  | _, _ => []
  end.

(** The index of the operand of shape [s] that feeds the result at [idx]. *)
Definition broadcast_index (s idx : list nat) : list nat :=
  clamp_index s (skipn (length idx - length s) idx).

(** A binary ufunc. *)
Definition binop {A B C} (da : A) (db : B) (f : A -> B -> C)
    (a : ndarray A) (b : ndarray B) : option (ndarray C) :=
  s <- broadcast_shapes (shape a) (shape b) ;;
  Some (tabulate s (fun idx =>
          f (get da a (broadcast_index (shape a) idx))
            (get db b (broadcast_index (shape b) idx)))).

(** [np.prod(a)] of an integer array. *)
Definition prodZ (a : ndarray Z) : Z := fold_left Z.mul (data a) 1%Z.

(** [np.mgrid[[slice(0,n,1) for n in sizes]]]: entry [(k, c_1 .. c_N)] is
    [c_k].  (An extent below zero, on which numpy raises, is an empty axis
    here.) *)
Definition mgrid (sizes : list Z) : ndarray Z :=
  let s := List.map Z.to_nat sizes in
  tabulate (length s :: s)
    (fun idx => match idx with
                | k :: c => Z.of_nat (nth k c 0%nat)
                | [] => 0%Z
                end).

(** [a[:, np.newaxis]] *)
Definition newaxis1 {A} (a : ndarray A) : option (ndarray A) :=
  match shape a with
  | n :: rest => Some (mk_ndarray (n :: 1%nat :: rest) (data a))
  | [] => raise
  end.

(** [a[np.newaxis, :]] *)
Definition newaxis0 {A} (a : ndarray A) : option (ndarray A) :=
  match shape a with
  | _ :: _ => Some (mk_ndarray (1%nat :: shape a) (data a))
  | [] => raise
  end.

(** [a.squeeze()] *)
Definition squeeze {A} (a : ndarray A) : ndarray A :=
  mk_ndarray (filter (fun n => negb (Nat.eqb n 1)) (shape a)) (data a).

(** [np.array((a, b))] for two arrays. *)
Definition stack2 {A} (a b : ndarray A) : option (ndarray A) :=
  if list_eq_dec Nat.eq_dec (shape a) (shape b)
  then Some (mk_ndarray (2%nat :: shape a) (data a ++ data b))
  else raise.

(** [np.min(a, axis=0)] and [a.sum(axis=0)] of integer arrays. *)
Definition min0 (a : ndarray Z) : option (ndarray Z) :=
  match shape a with
  | S n :: rest =>
      Some (tabulate rest (fun idx =>
              fold_left Z.min
                (List.map (fun i => get 0%Z a (i :: idx)) (seq 1 n))
                (get 0%Z a (0%nat :: idx))))
  | _ => raise
  end.

Definition sum0 (a : ndarray Z) : option (ndarray Z) :=
  match shape a with
  | n :: rest =>
      Some (tabulate rest (fun idx =>
              fold_left Z.add
                (List.map (fun i => get 0%Z a (i :: idx)) (seq 0 n)) 0%Z))
  | [] => raise
  end.

(** The number of entries [slice(0, stop, 1)] selects on an axis of
    length [n]. *)
Definition slice_len (stop : Z) (n : nat) : nat :=
  if (0 <=? stop)%Z then Nat.min (Z.to_nat stop) n
  else Z.to_nat (Z.of_nat n + stop).

Fixpoint slice_shape (stops : list Z) (s : list nat) : option (list nat) :=
  match stops, s with
  | [], _ => Some s
  | stop :: stops', n :: s' =>
      r <- slice_shape stops' s' ;; Some (slice_len stop n :: r)
  | _ :: _, [] => raise
  end.

(** [a[tuple(slice(0, stop, 1) for stop in stops)]] *)
Definition slice0 {A} (d : A) (a : ndarray A) (stops : list Z)
    : option (ndarray A) :=
  s <- slice_shape stops (shape a) ;;
  Some (tabulate s (get d a)).

(** [a.reshape(newshape)] with the new shape given as an integer array of at
    most one axis.  (An entry [-1], an extent left to numpy, raises here.) *)
Definition reshape {A} (a : ndarray A) (newshape : ndarray Z)
    : option (ndarray A) :=
  let s := List.map Z.to_nat (data newshape) in
  if forallb (fun z => 0 <=? z)%Z (data newshape)
     && Nat.leb (length (shape newshape)) 1
     && Nat.eqb (prod s) (length (data a))
  then Some (mk_ndarray s (data a))
  else raise.

(** [np.concatenate((a, b), axis=0)] *)
Definition concatenate0 {A} (a b : ndarray A) : option (ndarray A) :=
  match shape a, shape b with
  | n :: s, m :: t =>
      if list_eq_dec Nat.eq_dec s t
      then Some (mk_ndarray ((n + m)%nat :: s) (data a ++ data b))
      else raise
  | _, _ => raise
  end.

(** [a[i]] for an integer [i]: the [i]-th block along the first axis. *)
Definition item {A} (a : ndarray A) (i : nat) : option (ndarray A) :=
  match shape a with
  | n :: rest =>
      if Nat.ltb i n
      then Some (mk_ndarray rest
                   (firstn (prod rest) (skipn (i * prod rest) (data a))))
      else raise
  | [] => raise
  end.

(** [a.reshape(3,-1).T] of an array whose size is a multiple of 3. *)
Definition reshape3T {A} (d : A) (a : ndarray A) : ndarray A :=
  let m := Nat.div (length (data a)) 3 in
  tabulate [m; 3%nat]
    (fun idx => match idx with
                | [i; k] => nth (k * m + i) (data a) d
                | _ => d
                end).

(** An index inside a shape, and an array whose entries fill its shape. *)
Definition in_bounds (s idx : list nat) : Prop :=
  Forall2 (fun i n => (i < n)%nat) idx s.

Definition wf {A} (a : ndarray A) : Prop :=
  length (data a) = prod (shape a).

End np.

(** ** The imported modules

    [numpy] is the library's dtypes with their element arithmetic, the
    transform pair of [np.fft] and the generator of [np.random]. *)

Class numpy : Type := {
  float32 : Type;
  float64 : Type;
  complex128 : Type;
  zero32 : float32;
  zero64 : float64;
  zeroc : complex128;
  (** int64 to float64 *)
  float_ : Z -> float64;
  (** [x ** 0.5] and [np.sqrt(x)] *)
  sqrt : float64 -> float64;
  (** [np.abs(z)] of a complex entry *)
  absolute : complex128 -> float64;
  true_divide : float64 -> float64 -> float64;
  multiply : float64 -> float64 -> float64;
  (** [re + 1j*im] *)
  complex_ : float32 -> float32 -> complex128;
  (** [z * x] for a complex [z] and a real [x] *)
  cmultiply : complex128 -> float64 -> complex128;
  real : complex128 -> float64;
  imag : complex128 -> float64;
  (** [x < 0] *)
  lt_zero : float64 -> bool;
  (** [np.fft.fftn] and [np.fft.ifftn] on the entries of an array of the
      given shape *)
  fftn_data : list nat -> list float64 -> list complex128;
  ifftn_data : list nat -> list complex128 -> list complex128;
  (** [np.random.Generator]: its state, seeding, and a draw of [n]
      standard-normal float32 values *)
  Generator : Type;
  seed_Generator : Z -> Generator;
  normal_data : Generator -> nat -> list float32 * Generator
}.

(** Modelled from the spec: the covariance-model collaborator
    [covariancefunction], imported by the source and absent from the source
    files.  [find_maximum_range] is a function of the model specification
    alone, and [covariance] is the covariance of a model as a function of
    the lag; both fail on a specification they do not recognise. *)
Class covfun `{numpy} : Type := {
  find_maximum_range : String.string -> option Q;
  covariance : String.string -> option (float64 -> float64)
}.

(** [pyfftw.interfaces.numpy_fft.ifftn] on the entries. *)
Class pyfftw `{numpy} : Type := {
  pyfftw_ifftn_data : list nat -> list complex128 -> list complex128
}.

Module spectralsim.
Section Model.

Context `{NP : numpy} {CF : covfun} {FW : pyfftw}.

(** Modelled from the spec: [covfun.Covariogram(h, model)], absent from the
    source files, evaluates the model on each lag; the result has the shape
    of [h]. *)
Definition Covariogram (h : ndarray float64) (model : String.string)
    : option (ndarray float64) :=
  c <- covariance model ;; Some (np.map c h).

(** [np.fft.fftn(a)], [np.fft.ifftn(a)] and pyfftw's [ifftn(a)]: the result
    has the shape of [a].  (numpy raises on an array with an empty axis; the
    transforms here are total.) *)
Definition fftn (a : ndarray float64) : ndarray complex128 :=
  mk_ndarray (shape a) (fftn_data (shape a) (data a)).

Definition ifftn (a : ndarray complex128) : ndarray complex128 :=
  mk_ndarray (shape a) (ifftn_data (shape a) (data a)).

Definition pyfftw_ifftn (a : ndarray complex128) : ndarray complex128 :=
  mk_ndarray (shape a) (pyfftw_ifftn_data (shape a) (data a)).

(** [np.random.default_rng(seed)]: an integer seed must not be negative;
    without a seed the generator is seeded from the entropy of the operating
    system. *)
Definition default_rng (os_entropy : Z) (seed : option Z) : option Generator :=
  match seed with
  | Some s => if (s <? 0)%Z then raise else Some (seed_Generator s)
  | None => Some (seed_Generator os_entropy)
  end.

(** [g.standard_normal(size = s, dtype = np.float32)] *)
Definition standard_normal (g : Generator) (s : list nat)
    : ndarray float32 * Generator :=
  let '(xs, g') := normal_data g (np.prod s) in (mk_ndarray s xs, g').

(** [len(a)] *)
Definition len {A} (a : ndarray A) : option nat :=
  match shape a with
  | n :: _ => Some n
  | [] => raise
  end.

(** [a[i]] on a one-dimensional integer array *)
Definition getitem (a : ndarray Z) (i : nat) : option Z :=
  match shape a with
  | [_] => nth_error (data a) i
  | _ => raise
  end.

Fixpoint mapM {A B} (f : A -> option B) (l : list A) : option (list B) :=
  match l with
  | [] => Some []
  | x :: l' => y <- f x ;; r <- mapM f l' ;; Some (y :: r)
  end.

Record spectral_random_field : Type := {
  counter : Z;
  periodic : bool;
  pyfftwmode : bool;
  seed : option Z;
  xyz : option (ndarray Z);
  cutoff : ndarray Z;
  domainsize : ndarray Z;
  covmod : String.string;
  ndim : nat;
  npoints : Z;
  grid : ndarray Z;
  h : ndarray float64;
  Q : ndarray float64;
  FFTQ : ndarray float64;
  sqrtFFTQ : ndarray float64;
  rng : Generator;
  Y : option (ndarray float64)
}.

Definition set_draw (self : spectral_random_field) (c : Z) (g : Generator)
    (y : ndarray float64) : spectral_random_field :=
  {| counter := c; periodic := periodic self; pyfftwmode := pyfftwmode self;
     seed := seed self; xyz := xyz self; cutoff := cutoff self;
     domainsize := domainsize self; covmod := covmod self;
     ndim := ndim self; npoints := npoints self; grid := grid self;
     h := h self; Q := Q self; FFTQ := FFTQ self;
     sqrtFFTQ := sqrtFFTQ self; rng := g; Y := Some y |}.

(** Lines 35-43: the cutoff of a non-periodic domain. *)
Definition m8 (dim : Z) (cutoff : QArith_base.Q) : Z :=
  let tsize := (inject_Z dim + cutoff)%Q in
  (Qceiling (tsize / 8) * 8)%Z.

Definition cutoffs (domainsize : list Z) (cutoff : QArith_base.Q) : list Z :=
  List.map (fun dim => (m8 dim cutoff - dim)%Z) domainsize.

(** Lines 99-104 and 130-134: the crop of one field. *)
Definition crop (self : spectral_random_field) (Y1 : ndarray float64)
    : option (ndarray float64) :=
  newshape <- np.binop 0%Z 0%Z Z.sub (np.squeeze (domainsize self))
                (cutoff self) ;;
  gridslice <- mapM (getitem newshape) (seq 0 (ndim self)) ;;
  Y1 <- np.slice0 zero64 Y1 gridslice ;;
  np.reshape Y1 newshape.

(** The noise of one draw, shaped by the spectral standard deviation. *)
Definition shaped_noise (self : spectral_random_field)
    : option (ndarray complex128 * Generator) :=
  let '(real_, g1) := standard_normal (rng self) (shape (sqrtFFTQ self)) in
  let '(imag_, g2) := standard_normal g1 (shape (sqrtFFTQ self)) in
  epsilon <- np.binop zero32 zero32 complex_ real_ imag_ ;;
  rand <- np.binop zeroc zero64 cmultiply epsilon (sqrtFFTQ self) ;;
  Some (rand, g2).

Definition times_npoints (self : spectral_random_field)
    (a : ndarray float64) : ndarray float64 :=
  np.map (fun x => multiply x (float_ (npoints self))) a.

Definition simnew (self : spectral_random_field)
    : option (ndarray float64 * spectral_random_field) :=
  let counter' := (counter self + 1)%Z in
  '(rand, g) <- shaped_noise self ;;
  let '(Y1, Y2) :=
    if pyfftwmode self
    then (times_npoints self (np.map real (pyfftw_ifftn rand)),
          times_npoints self (np.map imag (pyfftw_ifftn rand)))
    else (times_npoints self (np.map real (ifftn rand)),
          times_npoints self (np.map imag (ifftn rand))) in
  '(Y1, Y2) <- (if negb (periodic self)
                then Y1' <- crop self Y1 ;;
                     Y2' <- crop self Y2 ;;
                     Some (Y1', Y2')
                else Some (Y1, Y2)) ;;
  A <- np.newaxis0 Y1 ;;
  B <- np.newaxis0 Y2 ;;
  Y' <- np.concatenate0 A B ;;
  Some (Y', set_draw self counter' g Y').

Definition simnew_real (self : spectral_random_field)
    : option (ndarray float64 * spectral_random_field) :=
  let counter' := (counter self + 1)%Z in
  '(rand, g) <- shaped_noise self ;;
  let Y0 :=
    if pyfftwmode self
    then times_npoints self (np.map real (pyfftw_ifftn rand))
    else times_npoints self (np.map real (ifftn rand)) in
  Y' <- (if negb (periodic self) then crop self Y0 else Some Y0) ;;
  Some (Y', set_draw self counter' g Y').

Definition __init__ (os_entropy : Z) (domainsize : list Z)
    (covmod : String.string) (periodic pyfftwmode : bool) (seed : option Z)
    : option spectral_random_field :=
  let counter := 0%Z in
  let xyz :=
    if Nat.eqb (length domainsize) 3
    then Some (np.reshape3T 0%Z (np.mgrid domainsize))
    else None in
  cutoff_ <- (if negb periodic
              then cutoff <- find_maximum_range covmod ;;
                   Some (np.array (cutoffs domainsize cutoff))
              else Some (np.scalar 0%Z)) ;;
  domainsize_ <- np.binop 0%Z 0%Z Z.add (np.array domainsize) cutoff_ ;;
  ndim <- len domainsize_ ;;
  let npoints := np.prodZ domainsize_ in
  let grid := np.mgrid (data domainsize_) in
  domainsize_ <- for_range ndim np.newaxis1 domainsize_ ;;
  diff <- np.binop 0%Z 0%Z Z.sub domainsize_ grid ;;
  both <- np.stack2 grid diff ;;
  grid <- np.min0 both ;;
  sq <- np.sum0 (np.map (fun x => x ^ 2)%Z grid) ;;
  let h := np.map (fun x => sqrt (float_ x)) sq in
  Q <- Covariogram h covmod ;;
  let FFTQ := np.map absolute (fftn Q) in
  let sqrtFFTQ :=
    np.map sqrt (np.map (fun x => true_divide x (float_ npoints)) FFTQ) in
  rng <- default_rng os_entropy seed ;;
  let self :=
    {| counter := counter; periodic := periodic; pyfftwmode := pyfftwmode;
       seed := seed; xyz := xyz; cutoff := cutoff_;
       domainsize := domainsize_; covmod := covmod; ndim := ndim;
       npoints := npoints; grid := grid; h := h; Q := Q; FFTQ := FFTQ;
       sqrtFFTQ := sqrtFFTQ; rng := rng; Y := None |} in
  '(_, self) <- simnew self ;;
  Some self.

End Model.
End spectralsim.

(** ** An executable instance of the imported modules

    Entries are binary64 floats with their IEEE arithmetic.  The transform
    is the discrete Fourier transform on axes whose length divides 8 (the
    eighth roots of unity need only [sqrt 0.5]); the generator is a linear
    congruential one whose normal draw is a sum of twelve uniforms; the
    covariance models are spherical ones. *)

Module binary64.

Import String.

Definition complex : Type := float * float.

Definition of_Z (z : Z) : float :=
  if (z <? 0)%Z then PrimFloat.opp (PrimFloat.of_uint63 (Uint63.of_Z (- z)))
  else PrimFloat.of_uint63 (Uint63.of_Z z).

Definition cadd (a b : complex) : complex :=
  (fst a + fst b, snd a + snd b)%float.

Definition cmul (a b : complex) : complex :=
  (fst a * fst b - snd a * snd b, fst a * snd b + snd a * fst b)%float.

Definition cscale (a : complex) (x : float) : complex :=
  (fst a * x, snd a * x)%float.

Definition hypot (a : complex) : float :=
  PrimFloat.sqrt (fst a * fst a + snd a * snd a)%float.

(** [exp(-2 pi i e / 8)] *)
Definition root8 (e : nat) : complex :=
  let r := PrimFloat.sqrt 0.5%float in
  nth (e mod 8)
    [(1, 0); (r, - r); (0, - 1); (- r, - r);
     (- 1, 0); (- r, r); (0, 1); (r, r)]%float (1, 0)%float.

Definition conj (a : complex) : complex := (fst a, - snd a)%float.

(** [exp(-+ 2 pi i k j / n)] for [n] dividing 8 *)
Definition twiddle (inverse : bool) (n k j : nat) : complex :=
  let w := root8 (8 / n * (k * j)) in
  if inverse then conj w else w.

Fixpoint kernel (inverse : bool) (s k j : list nat) : complex :=
  match s, k, j with
  | n :: s', k1 :: k', j1 :: j' =>
      cmul (twiddle inverse n k1 j1) (kernel inverse s' k' j')
  | _, _, _ => (1, 0)%float
  end.

Definition dft (inverse : bool) (s : list nat) (x : list complex)
    : list complex :=
  List.map
    (fun k =>
       fold_left cadd
         (List.map (fun jx => cmul (snd jx) (kernel inverse s k (fst jx)))
            (combine (np.ndindex s) x))
         (0, 0)%float)
    (np.ndindex s).

Definition forward (s : list nat) (x : list float) : list complex :=
  dft false s (List.map (fun v => (v, 0%float)) x).

Definition backward (s : list nat) (x : list complex) : list complex :=
  let n := of_Z (Z.of_nat (np.prod s)) in
  List.map (fun z => (fst z / n, snd z / n)%float) (dft true s x).

(** The generator. *)
Definition lcg (g : Z) : Z := ((1103515245 * g + 12345) mod 2147483648)%Z.

Fixpoint uniforms (n : nat) (g : Z) (acc : float) : float * Z :=
  match n with
  | O => (acc, g)
  | S n' =>
      let g' := lcg g in
      uniforms n' g' (acc + of_Z g' / 2147483648)%float
  end.

Definition normal1 (g : Z) : float * Z :=
  let '(u, g') := uniforms 12 g 0%float in ((u - 6)%float, g').

Fixpoint draws {S A} (draw : S -> A * S) (n : nat) (g : S) : list A * S :=
  match n with
  | O => ([], g)
  | S n' =>
      let '(x, g') := draw g in
      let '(xs, g'') := draws draw n' g' in
      (x :: xs, g'')
  end.

Definition normals (g : Z) (n : nat) : list float * Z :=
  draws normal1 n g.

#[export] Instance NP : numpy := {|
  float32 := float;
  float64 := float;
  complex128 := complex;
  zero32 := 0%float;
  zero64 := 0%float;
  zeroc := (0, 0)%float;
  float_ := of_Z;
  sqrt := PrimFloat.sqrt;
  absolute := hypot;
  true_divide := PrimFloat.div;
  multiply := PrimFloat.mul;
  complex_ := fun re im => (re, im);
  cmultiply := cscale;
  real := fst;
  imag := snd;
  lt_zero := fun x => PrimFloat.ltb x 0%float;
  fftn_data := forward;
  ifftn_data := backward;
  Generator := Z;
  seed_Generator := fun s => (s mod 2147483648)%Z;
  normal_data := normals
|}.

(** [sill Sph(range)] *)
Definition spherical (sill range : float) (h : float) : float :=
  if PrimFloat.ltb range h then 0%float
  else (sill * (1 - 1.5 * h / range + h * h * h / (2 * range * range * range)))%float.

Definition sph3 : String.string := "1.0 Sph(3.)".

Definition sph25 : String.string := "1.0 Sph(2.5)".

Definition unknown : String.string := "1.0 Abc(2.)".

Definition models : list (String.string * (QArith_base.Q * (float -> float))) :=
  [(sph3, (3%Q, spherical 1 3)); (sph25, (5 # 2, spherical 1 2.5))].

Fixpoint lookup {V} (k : String.string) (l : list (String.string * V))
    : option V :=
  match l with
  | [] => None
  | (k', v) :: l' => if String.eqb k k' then Some v else lookup k l'
  end.

#[export] Instance CF : covfun := {|
  find_maximum_range := fun m => option_map fst (lookup m models);
  covariance := fun m => option_map snd (lookup m models)
|}.

#[export] Instance FW : pyfftw := {|
  pyfftw_ifftn_data := backward
|}.

(** The sign of a binary64 value, read off its IEEE decomposition: not
    below zero, and sign bit clear. *)
Definition not_below_zero (s : spec_float) : Prop :=
  match s with
  | S754_finite true _ _ | S754_infinity true => False
  | _ => True
  end.

Definition sign_clear (s : spec_float) : Prop :=
  match s with
  | S754_zero true | S754_finite true _ _ | S754_infinity true => False
  | _ => True
  end.

End binary64.

(** ** The order of float64

    What the claims on signs need of the arithmetic: a magnitude is not below
    zero, and neither is the quotient by a positive integer or the square
    root of a value that is not below zero.  (A NaN is not below zero.) *)

Class numpy_order `{numpy} : Prop := {
  absolute_not_lt_zero : forall z, lt_zero (absolute z) = false;
  true_divide_not_lt_zero : forall x n,
    lt_zero x = false -> (0 < n)%Z ->
    lt_zero (true_divide x (float_ n)) = false;
  sqrt_not_lt_zero : forall x,
    lt_zero x = false -> lt_zero (sqrt x) = false
}.

(** ** The specification's vocabulary *)

Module spec.

(** Section 6: a grid shape is an ordered sequence of positive integers, one
    per dimension, of at least one dimension. *)
Definition valid_grid_shape (domainSize : list Z) : Prop :=
  domainSize <> [] /\ Forall (fun d => 0 < d)%Z domainSize.

(** Section 4.1: [p] is the target extent rounded up to the nearest multiple
    of 8 that is greater than or equal to it. *)
Definition rounded_up_to_8 (target : Q) (p : Z) : Prop :=
  (8 | p)%Z /\ (target <= inject_Z p)%Q /\
  forall m : Z, (8 | m)%Z -> (target <= inject_Z m)%Q -> (p <= m)%Z.

(** Section 4.2: each coordinate is replaced by its wrap-around distance to
    the origin, [min(c_i, paddedSize_i - c_i)]; the lag is the Euclidean norm
    of the wrapped coordinates.  [lag_sq] is the square under the root. *)
Definition wrapped (paddedSize : list Z) (c : list nat) : list Z :=
  List.map (fun pc => Z.min (snd pc) (fst pc - snd pc))
    (combine paddedSize (List.map Z.of_nat c)).

Definition lag_sq (paddedSize : list Z) (c : list nat) : Z :=
  fold_right Z.add 0%Z (List.map (fun x => x ^ 2)%Z (wrapped paddedSize c)).

(** Section 4.3: the number of entries of the padded grid. *)
Definition elementCount (paddedSize : list Z) : Z :=
  fold_right Z.mul 1%Z paddedSize.

(** Section 4.1: the padded size. *)
Definition paddedSize (periodic : bool) (domainSize : list Z) (maxRange : Q)
    : list Z :=
  if periodic then domainSize
  else List.map (fun dim => spectralsim.m8 dim maxRange) domainSize.

(** Section 6: an optional random seed; numpy takes an integer seed that is
    not negative. *)
Definition valid_seed (seed : option Z) : Prop :=
  match seed with
  | Some s => (0 <= s)%Z
  | None => True
  end.

(** The shape of an array, as the extents the caller wrote. *)
Definition extents {A} (a : ndarray A) : list Z := List.map Z.of_nat (shape a).

End spec.

(** ** The generator between calls *)

Module generator.
Import spectralsim.
Section Generator.

Context `{NP : numpy} {CF : covfun} {FW : pyfftw}.

(** The random stream a constructor starts from. *)
Definition seeded (os_entropy : Z) (seed : option Z) : Generator :=
  seed_Generator (match seed with Some s => s | None => os_entropy end).

(** The random stream after one synthesis call: two arrays of shape [s]
    were drawn. *)
Definition advance (g : Generator) (s : list nat) : Generator :=
  snd (standard_normal (snd (standard_normal g s)) s).

(** The complex field of one draw, before it is split into its parts. *)
Definition transformed (self : spectral_random_field)
    (rand : ndarray complex128) : ndarray complex128 :=
  if pyfftwmode self then pyfftw_ifftn rand else ifftn rand.

(** Lines 97-104 and 128-134: the post-processing of one field. *)
Definition postprocess (self : spectral_random_field) (Y1 : ndarray float64)
    : option (ndarray float64) :=
  if negb (periodic self) then crop self Y1 else Some Y1.

Inductive call : Type := call_simnew | call_simnew_real.

Definition do_call (c : call) (self : spectral_random_field)
    : option (ndarray float64 * spectral_random_field) :=
  match c with
  | call_simnew => simnew self
  | call_simnew_real => simnew_real self
  end.

(** A sequence of synthesis calls on one generator, with their results. *)
Fixpoint run (calls : list call) (self : spectral_random_field)
    : option (list (ndarray float64) * spectral_random_field) :=
  match calls with
  | [] => Some ([], self)
  | c :: calls' =>
      '(y, self1) <- do_call c self ;;
      '(ys, self2) <- run calls' self1 ;;
      Some (y :: ys, self2)
  end.

(** The shape law on one result: a single field has the requested extent,
    and so has each of the two fields of a pair. *)
Definition returned_shape (domainSize : list Z) (c : call)
    (y : ndarray float64) : Prop :=
  match c with
  | call_simnew_real => spec.extents y = domainSize
  | call_simnew =>
      exists A B, np.item y 0 = Some A /\ np.item y 1 = Some B /\
                  spec.extents A = domainSize /\ spec.extents B = domainSize
  end.

(** The cutoff the constructor stores. *)
Definition stored_cutoff (periodic : bool) (domainsize : list Z)
    (maxRange : QArith_base.Q) : ndarray Z :=
  if periodic then np.scalar 0%Z else np.array (cutoffs domainsize maxRange).

(** The object at line 75, before the constructor's own draw; [grid] and
    [sq] are the wrapped coordinates and the sums of their squares. *)
Definition before_draw (os_entropy : Z) (ds : list Z) (cm : String.string)
    (per pf : bool) (sd : option Z) (r : QArith_base.Q)
    (c : float64 -> float64) (grid sq : ndarray Z) : spectral_random_field :=
  let P := spec.paddedSize per ds r in
  let h := np.map (fun x => sqrt (float_ x)) sq in
  let Q := np.map c h in
  let FFTQ := np.map absolute (fftn Q) in
  let npoints := fold_left Z.mul P 1%Z in
  {| counter := 0%Z; periodic := per; pyfftwmode := pf; seed := sd;
     xyz := if Nat.eqb (length ds) 3
            then Some (np.reshape3T 0%Z (np.mgrid ds)) else None;
     cutoff := stored_cutoff per ds r;
     domainsize := mk_ndarray (length ds :: repeat 1%nat (length ds)) P;
     covmod := cm; ndim := length ds; npoints := npoints;
     grid := grid; h := h; Q := Q; FFTQ := FFTQ;
     sqrtFFTQ :=
       np.map sqrt (np.map (fun x => true_divide x (float_ npoints)) FFTQ);
     rng := seeded os_entropy sd; Y := None |}.

(** What a synthesis call reads of a generator built for the extent [ds]. *)
Definition laid_out (ds : list Z) (self : spectral_random_field) : Prop :=
  spec.valid_grid_shape ds /\
  ndim self = length ds /\
  shape (domainsize self) = length ds :: repeat 1%nat (length ds) /\
  length (data (domainsize self)) = length ds /\
  shape (sqrtFFTQ self) = List.map Z.to_nat (data (domainsize self)) /\
  if periodic self then data (domainsize self) = ds
  else shape (cutoff self) = [length ds] /\
       length (data (cutoff self)) = length ds /\
       List.map (fun pc => fst pc - snd pc)%Z
         (combine (data (domainsize self)) (data (cutoff self))) = ds /\
       Forall2 Z.le ds (data (domainsize self)).

End Generator.

(** What lines 51-59 leave in the array under the root. *)
Definition lag_squares (P : list Z) (sq : ndarray Z) : Prop :=
  shape sq = List.map Z.to_nat P /\ np.wf sq /\
  forall c, np.in_bounds (List.map Z.to_nat P) c ->
    np.get 0%Z sq c = spec.lag_sq P c.

End generator.

(** ** The attributes in closed form, and what a call reads *)

Module behaviour.
Import spectralsim generator.

(** Lines 51-56: the wrapped coordinates of the grid of extents [P]; entry
    [(k, c)] is the wrap-around distance of [c_k] on axis [k]. *)
Definition wrapped_grid (P : list Z) : ndarray Z :=
  np.tabulate (length P :: List.map Z.to_nat P)
    (fun idx => match idx with
                | k :: c => Z.min (Z.of_nat (nth k c 0%nat))
                              (nth k P 0%Z - Z.of_nat (nth k c 0%nat))
                | [] => 0%Z
                end).

(** Line 59, under the root: the sums of the squared wrapped coordinates. *)
Definition lag_sq_grid (P : list Z) : ndarray Z :=
  np.tabulate (List.map Z.to_nat P) (spec.lag_sq P).

(** The mirror image of a coordinate on the torus of extents [P]: on the
    axes the mask selects, [c_i] becomes [(P_i - c_i) mod P_i]. *)
Fixpoint reflect (mask : list bool) (P : list Z) (c : list nat) : list nat :=
  match c, P with
  | ci :: c', p :: P' =>
      (if hd false mask then Z.to_nat ((p - Z.of_nat ci) mod p) else ci)
      :: reflect (tl mask) P' c'
  | _, _ => c
  end.

Section Behaviour.

Context `{NP : numpy} {CF : covfun} {FW : pyfftw}.

(** Two generators that agree on every attribute [simnew] and [simnew_real]
    read. *)
Definition reads_alike (a b : spectral_random_field) : Prop :=
  sqrtFFTQ a = sqrtFFTQ b /\ rng a = rng b /\ npoints a = npoints b /\
  pyfftwmode a = pyfftwmode b /\ periodic a = periodic b /\
  domainsize a = domainsize b /\ cutoff a = cutoff b /\ ndim a = ndim b.

(** Two generators that agree on what the field of a draw is made from,
    before it is cropped. *)
Definition same_spectrum (a b : spectral_random_field) : Prop :=
  sqrtFFTQ a = sqrtFFTQ b /\ rng a = rng b /\ npoints a = npoints b /\
  pyfftwmode a = pyfftwmode b.

(** The random stream after [n] synthesis calls that draw arrays of shape
    [s]. *)
Fixpoint advance_n (n : nat) (g : Generator) (s : list nat) : Generator :=
  match n with
  | O => g
  | S n' => advance_n n' (advance g s) s
  end.

(** Two results of one operation that hold the same values at every index
    inside both extents [sa] and [sb]. *)
Definition agree (sa sb : list nat) (c : call) (ya yb : ndarray float64)
    : Prop :=
  match c with
  | call_simnew_real =>
      forall idx, np.in_bounds sa idx -> np.in_bounds sb idx ->
        np.get zero64 ya idx = np.get zero64 yb idx
  | call_simnew =>
      forall j idx, (j < 2)%nat -> np.in_bounds sa idx -> np.in_bounds sb idx ->
        np.get zero64 ya (j :: idx) = np.get zero64 yb (j :: idx)
  end.

(** The transform of this generator returns as many entries as the shape of
    its argument has. *)
Definition transform_keeps_size (self : spectral_random_field) : Prop :=
  forall rand, np.wf rand -> np.wf (transformed self rand).

End Behaviour.

(** One case for each step of a call that can raise. *)
Ltac split_binds :=
  repeat match goal with
  | |- context [bind (spectralsim.crop ?s ?y) _] =>
      destruct (spectralsim.crop s y); cbn [bind]
  | |- context [bind (np.newaxis0 ?y) _] =>
      destruct (np.newaxis0 y); cbn [bind]
  | |- context [bind (np.concatenate0 ?x ?y) _] =>
      destruct (np.concatenate0 x y); cbn [bind]
  end.

End behaviour.

(** The transforms are shape-preserving: on the entries of an array of shape
    [s] they return as many entries. *)
Class transform_sizes `{NP : numpy} {FW : pyfftw} : Prop := {
  ifftn_size : forall s l,
    length l = np.prod s -> length (ifftn_data s l) = np.prod s;
  pyfftw_ifftn_size : forall s l,
    length l = np.prod s -> length (pyfftw_ifftn_data s l) = np.prod s
}.
(** ** Arrays: indices, entries and shapes *)

Module np_facts.

Lemma length_ndindex (s : list nat) :
  length (np.ndindex s) = np.prod s.
Proof.
  induction s as [|n s IH]; simpl; [reflexivity|].
  generalize 0%nat as start.
  induction n as [|n IHn]; intros start; simpl; [reflexivity|].
  rewrite length_app, length_map, IH, IHn. reflexivity.
Qed.

Lemma nth_flat_map_block {A} (f : nat -> list A) (m : nat) (d : A) :
  (forall k, length (f k) = m) ->
  forall n start i j, (i < n)%nat -> (j < m)%nat ->
  nth (i * m + j) (flat_map f (seq start n)) d = nth j (f (start + i)%nat) d.
Proof.
  intros Hlen n.
  induction n as [|n IH]; intros start i j Hi Hj; [lia|].
  simpl. destruct i as [|i].
  - rewrite app_nth1 by (rewrite Hlen; lia).
    rewrite Nat.add_0_r. reflexivity.
  - rewrite app_nth2 by (rewrite Hlen; simpl; lia).
    rewrite Hlen.
    replace (S i * m + j - m)%nat with (i * m + j)%nat by (simpl; lia).
    rewrite IH by lia. f_equal. f_equal. lia.
Qed.

Lemma ravel_lt (s idx : list nat) :
  np.in_bounds s idx -> (np.ravel s idx < np.prod s)%nat.
Proof.
  intros Hb. induction Hb as [|i n idx s Hi Hb IH]; simpl; [lia|].
  nia.
Qed.

Lemma nth_ndindex (s idx : list nat) (d : list nat) :
  np.in_bounds s idx -> nth (np.ravel s idx) (np.ndindex s) d = idx.
Proof.
  intros Hb. induction Hb as [|i n idx s Hi Hb IH]; simpl; [reflexivity|].
  rewrite nth_flat_map_block with (m := np.prod s); try assumption.
  - simpl. rewrite nth_indep with (d' := cons i d).
    + rewrite map_nth. rewrite IH. reflexivity.
    + rewrite length_map, length_ndindex. apply ravel_lt. assumption.
  - intros k. rewrite length_map. apply length_ndindex.
  - apply ravel_lt. assumption.
Qed.

Lemma ndindex_in_bounds (s : list nat) :
  Forall (np.in_bounds s) (np.ndindex s).
Proof.
  induction s as [|n s IH]; simpl.
  - constructor; constructor.
  - apply Forall_flat_map. apply Forall_forall. intros i Hi.
    apply in_seq in Hi. apply Forall_map.
    eapply Forall_impl; [|exact IH].
    intros idx Hidx. constructor; [lia|assumption].
Qed.

Lemma wf_tabulate {A} (s : list nat) (f : list nat -> A) :
  np.wf (np.tabulate s f).
Proof. unfold np.wf. simpl. rewrite length_map. apply length_ndindex. Qed.

Lemma get_tabulate {A} (d : A) (s : list nat) (f : list nat -> A) idx :
  np.in_bounds s idx -> np.get d (np.tabulate s f) idx = f idx.
Proof.
  intros Hb. unfold np.get. simpl.
  rewrite nth_indep with (d' := f idx).
  - rewrite map_nth. rewrite nth_ndindex; [reflexivity|assumption].
  - rewrite length_map, length_ndindex. apply ravel_lt. assumption.
Qed.

Lemma get_map {A B} (d : A) (e : B) (f : A -> B) (a : ndarray A) idx :
  np.wf a -> np.in_bounds (shape a) idx ->
  np.get e (np.map f a) idx = f (np.get d a idx).
Proof.
  intros Hwf Hb. unfold np.get. simpl.
  rewrite nth_indep with (d' := f d).
  - apply map_nth.
  - rewrite length_map, Hwf. apply ravel_lt. assumption.
Qed.

Lemma wf_map {A B} (f : A -> B) (a : ndarray A) : np.wf a -> np.wf (np.map f a).
Proof. unfold np.wf. simpl. rewrite length_map. trivial. Qed.

End np_facts.

(** ** Arrays: one-dimensional operands and broadcasting *)

Module np_ops.
Import np_facts.

Lemma ndindex_1d (n : nat) :
  np.ndindex [n] = List.map (fun i => [i]) (seq 0 n).
Proof.
  simpl. generalize 0%nat as start.
  induction n as [|n IH]; intros start; simpl; [reflexivity|].
  rewrite IH. reflexivity.
Qed.

Lemma map_nth_seq {A B} (F : A -> B) (l : list A) (d : A) :
  List.map (fun i => F (nth i l d)) (seq 0 (length l)) = List.map F l.
Proof.
  induction l as [|x l IH]; simpl; [reflexivity|].
  f_equal. rewrite <- seq_shift, map_map. exact IH.
Qed.

Lemma nth_map_in {A B} (f : A -> B) (l : list A) (d : A) (e : B) (i : nat) :
  (i < length l)%nat -> nth i (List.map f l) e = f (nth i l d).
Proof.
  intros Hi. rewrite nth_indep with (d' := f d) by (rewrite length_map; lia).
  apply map_nth.
Qed.

Lemma broadcast_dims_same (s : list nat) : np.broadcast_dims s s = Some s.
Proof.
  induction s as [|a s IH]; simpl; [reflexivity|].
  unfold np.broadcast_dim. rewrite Nat.eqb_refl. simpl. rewrite IH.
  reflexivity.
Qed.

Lemma pad_left_same (s : list nat) : np.pad_left (length s) s = s.
Proof. unfold np.pad_left. rewrite Nat.sub_diag. reflexivity. Qed.

Lemma broadcast_shapes_same (s : list nat) : np.broadcast_shapes s s = Some s.
Proof.
  unfold np.broadcast_shapes. rewrite Nat.max_id, pad_left_same.
  apply broadcast_dims_same.
Qed.

Lemma broadcast_dim_1_l (b : nat) : np.broadcast_dim 1 b = Some b.
Proof.
  unfold np.broadcast_dim. destruct (Nat.eqb 1 b) eqn:E; [|reflexivity].
  apply Nat.eqb_eq in E. subst. reflexivity.
Qed.

Lemma broadcast_dim_1_r (a : nat) : np.broadcast_dim a 1 = Some a.
Proof.
  unfold np.broadcast_dim. destruct (Nat.eqb a 1) eqn:E; reflexivity.
Qed.

Lemma broadcast_dims_ones (t : list nat) :
  np.broadcast_dims (repeat 1%nat (length t)) t = Some t.
Proof.
  induction t as [|b t IH]; simpl; [reflexivity|].
  rewrite broadcast_dim_1_l. simpl. rewrite IH. reflexivity.
Qed.

(** A binary ufunc on two arrays of one shape keeps the shape. *)
Lemma binop_same_shape {A B C} (da : A) (db : B) (f : A -> B -> C) a b :
  shape a = shape b ->
  exists r, np.binop da db f a b = Some r /\ shape r = shape a /\ np.wf r.
Proof.
  intros E. unfold np.binop. rewrite <- E, broadcast_shapes_same. simpl.
  eexists. split; [reflexivity|]. split; [reflexivity|apply wf_tabulate].
Qed.

(** Entry by entry on two one-dimensional arrays of one length. *)
Lemma binop_1d {A B C} (da : A) (db : B) (f : A -> B -> C) a b n :
  shape a = [n] -> shape b = [n] ->
  np.binop da db f a b =
  Some (mk_ndarray [n]
          (List.map (fun i => f (nth i (data a) da) (nth i (data b) db))
             (seq 0 n))).
Proof.
  intros Ea Eb. unfold np.binop. rewrite Ea, Eb, broadcast_shapes_same.
  simpl bind. unfold np.tabulate. rewrite ndindex_1d, map_map.
  f_equal. f_equal. apply map_ext_in. intros i Hi. apply in_seq in Hi.
  unfold np.get, np.broadcast_index. rewrite Ea, Eb. simpl.
  destruct (Nat.eqb n 1) eqn:E.
  - apply Nat.eqb_eq in E. replace i with 0%nat by lia. reflexivity.
  - simpl. replace (i * 1 + 0)%nat with i by lia. reflexivity.
Qed.

(** A one-dimensional array and a scalar. *)
Lemma binop_1d_scalar {A B C} (da : A) (db : B) (f : A -> B -> C) a y n :
  shape a = [n] ->
  np.binop da db f a (np.scalar y) =
  Some (mk_ndarray [n]
          (List.map (fun i => f (nth i (data a) da) y) (seq 0 n))).
Proof.
  intros Ea. unfold np.binop, np.broadcast_shapes. rewrite Ea. simpl.
  rewrite broadcast_dim_1_r. simpl.
  unfold np.tabulate. rewrite ndindex_1d, map_map.
  f_equal. f_equal. apply map_ext_in. intros i Hi. apply in_seq in Hi.
  unfold np.get, np.broadcast_index. rewrite Ea. simpl.
  destruct (Nat.eqb n 1) eqn:E.
  - apply Nat.eqb_eq in E. replace i with 0%nat by lia. reflexivity.
  - simpl. replace (i * 1 + 0)%nat with i by lia. reflexivity.
Qed.

(** A zero-dimensional array against a one-entry array: [a - b] where
    [a] was squeezed down to no axis at all. *)
Lemma binop_0d_1d {A B C} (da : A) (db : B) (f : A -> B -> C) a b :
  shape a = [] -> shape b = [1%nat] ->
  np.binop da db f a b =
  Some (mk_ndarray [1%nat] [f (nth 0 (data a) da) (nth 0 (data b) db)]).
Proof.
  intros Ea Eb. unfold np.binop, np.broadcast_shapes, np.tabulate, np.get.
  rewrite Ea, Eb. reflexivity.
Qed.

Lemma for_range_newaxis1 {A} (k n : nat) (rest : list nat) (l : list A) :
  for_range k np.newaxis1 (mk_ndarray (n :: rest) l) =
  Some (mk_ndarray (n :: repeat 1%nat k ++ rest) l).
Proof.
  revert rest. induction k as [|k IH]; intros rest; simpl; [reflexivity|].
  rewrite IH. f_equal. f_equal. f_equal.
  change (1%nat :: rest) with ([1%nat] ++ rest).
  rewrite app_assoc. f_equal.
  change [1%nat] with (repeat 1%nat 1). rewrite <- repeat_app.
  rewrite Nat.add_1_r. reflexivity.
Qed.

(** The stored extents against the coordinate grid: [(N,1,..,1)] against
    [(N, s_1 .. s_N)]. *)
Lemma broadcast_shapes_column (n : nat) (t : list nat) :
  np.broadcast_shapes (n :: repeat 1%nat (length t)) (n :: t) = Some (n :: t).
Proof.
  unfold np.broadcast_shapes. simpl. rewrite repeat_length, Nat.max_id.
  unfold np.pad_left. simpl. rewrite repeat_length, Nat.sub_diag. simpl.
  unfold np.broadcast_dim at 1. rewrite Nat.eqb_refl. simpl.
  rewrite broadcast_dims_ones. reflexivity.
Qed.

End np_ops.

(** ** Arrays: entries of the operations of the distance grid *)

Module np_entries.
Import np_facts np_ops.

Lemma in_bounds_length (s idx : list nat) :
  np.in_bounds s idx -> length idx = length s.
Proof. intros Hb. induction Hb; simpl; congruence. Qed.

Lemma clamp_in_bounds (s idx : list nat) :
  np.in_bounds s idx -> np.clamp_index s idx = idx.
Proof.
  intros Hb. induction Hb as [|i n idx s Hi Hb IH]; simpl; [reflexivity|].
  rewrite IH. destruct (Nat.eqb n 1) eqn:E; [|reflexivity].
  apply Nat.eqb_eq in E. f_equal. lia.
Qed.

Lemma broadcast_index_in_bounds (s idx : list nat) :
  np.in_bounds s idx -> np.broadcast_index s idx = idx.
Proof.
  intros Hb. unfold np.broadcast_index.
  rewrite (in_bounds_length Hb), Nat.sub_diag. simpl.
  apply clamp_in_bounds. assumption.
Qed.

Lemma clamp_ones (idx : list nat) :
  np.clamp_index (repeat 1%nat (length idx)) idx = repeat 0%nat (length idx).
Proof. induction idx as [|i idx IH]; simpl; [reflexivity|]. rewrite IH. reflexivity. Qed.

Lemma prod_ones (k : nat) : np.prod (repeat 1%nat k) = 1%nat.
Proof. induction k as [|k IH]; simpl; [reflexivity|]. rewrite IH. reflexivity. Qed.

Lemma ravel_ones (k : nat) : np.ravel (repeat 1%nat k) (repeat 0%nat k) = 0%nat.
Proof. induction k as [|k IH]; simpl; [reflexivity|]. exact IH. Qed.

Lemma get_binop {A B C} (da : A) (db : B) (dc : C) (f : A -> B -> C) a b r idx :
  np.binop da db f a b = Some r -> np.in_bounds (shape r) idx ->
  np.get dc r idx =
  f (np.get da a (np.broadcast_index (shape a) idx))
    (np.get db b (np.broadcast_index (shape b) idx)).
Proof.
  unfold np.binop. destruct (np.broadcast_shapes (shape a) (shape b)) as [s|];
    simpl; [|discriminate].
  intros E Hb. injection E as <-. simpl in Hb.
  rewrite get_tabulate by assumption. reflexivity.
Qed.

Lemma get_stack2 {A} (d : A) (a b r : ndarray A) idx :
  np.stack2 a b = Some r -> np.wf a -> np.in_bounds (shape a) idx ->
  np.get d r (0%nat :: idx) = np.get d a idx /\
  np.get d r (1%nat :: idx) = np.get d b idx.
Proof.
  unfold np.stack2. destruct (list_eq_dec Nat.eq_dec (shape a) (shape b)) as [E|];
    [|discriminate].
  intros Er Hwf Hb. injection Er as <-. unfold np.get. simpl.
  pose proof (ravel_lt Hb) as Hlt. split.
  - apply app_nth1. rewrite Hwf. exact Hlt.
  - rewrite app_nth2 by (rewrite Hwf; lia). rewrite Hwf, <- E. f_equal. lia.
Qed.

Lemma get_min0_pair (a r : ndarray Z) rest idx :
  np.min0 a = Some r -> shape a = 2%nat :: rest -> np.in_bounds rest idx ->
  np.get 0%Z r idx =
  Z.min (np.get 0%Z a (0%nat :: idx)) (np.get 0%Z a (1%nat :: idx)).
Proof.
  unfold np.min0. intros Er Es. rewrite Es in Er. injection Er as <-.
  intros Hb. rewrite get_tabulate by assumption. reflexivity.
Qed.

Lemma get_sum0 (a r : ndarray Z) n rest idx :
  np.sum0 a = Some r -> shape a = n :: rest -> np.in_bounds rest idx ->
  np.get 0%Z r idx =
  fold_left Z.add (List.map (fun i => np.get 0%Z a (i :: idx)) (seq 0 n)) 0%Z.
Proof.
  unfold np.sum0. intros Er Es. rewrite Es in Er. injection Er as <-.
  intros Hb. rewrite get_tabulate by assumption. reflexivity.
Qed.

Lemma shape_mgrid (sizes : list Z) :
  shape (np.mgrid sizes) = length sizes :: List.map Z.to_nat sizes.
Proof. unfold np.mgrid. simpl. rewrite length_map. reflexivity. Qed.

Lemma get_mgrid (sizes : list Z) k c :
  (k < length sizes)%nat -> np.in_bounds (List.map Z.to_nat sizes) c ->
  np.get 0%Z (np.mgrid sizes) (k :: c) = Z.of_nat (nth k c 0%nat).
Proof.
  intros Hk Hb. unfold np.mgrid. rewrite get_tabulate; [reflexivity|].
  constructor; [rewrite length_map; exact Hk | exact Hb].
Qed.

(** The stored extents, read at row [k] of their column. *)
Lemma get_column (P : list Z) k m :
  np.get 0%Z (mk_ndarray (length P :: repeat 1%nat m) P) (k :: repeat 0%nat m)
  = nth k P 0%Z.
Proof.
  unfold np.get. simpl. rewrite prod_ones, ravel_ones. f_equal. lia.
Qed.

Lemma broadcast_index_column n m k c :
  (k < n)%nat -> length c = m ->
  np.broadcast_index (n :: repeat 1%nat m) (k :: c) = k :: repeat 0%nat m.
Proof.
  intros Hk <-. unfold np.broadcast_index. simpl. rewrite repeat_length.
  rewrite Nat.sub_diag. simpl. rewrite clamp_ones.
  destruct (Nat.eqb n 1) eqn:E; [|reflexivity].
  apply Nat.eqb_eq in E. f_equal. lia.
Qed.

End np_entries.

(** ** The distance grid *)

Module distance.
Import np_facts np_ops np_entries generator.

Lemma fold_left_add_shift (l : list Z) (a : Z) :
  fold_left Z.add l a = (a + fold_right Z.add 0 l)%Z.
Proof.
  revert a. induction l as [|x l IH]; intros a; simpl; [lia|].
  rewrite IH. lia.
Qed.

Lemma combine_nth_seq (P : list Z) (c : list nat) :
  length c = length P ->
  List.map (fun k => (nth k P 0%Z, Z.of_nat (nth k c 0%nat)))
    (seq 0 (length P))
  = combine P (List.map Z.of_nat c).
Proof.
  revert c. induction P as [|p P IH]; intros [|c0 c] Hl; simpl in *;
    try reflexivity; try discriminate.
  f_equal. rewrite <- seq_shift, map_map. apply IH. lia.
Qed.

Lemma lag_sq_seq (P : list Z) (c : list nat) :
  length c = length P ->
  fold_left Z.add
    (List.map (fun k => (Z.min (Z.of_nat (nth k c 0%nat))
                           (nth k P 0 - Z.of_nat (nth k c 0%nat))) ^ 2)%Z
       (seq 0 (length P))) 0%Z
  = spec.lag_sq P c.
Proof.
  intros Hl. rewrite fold_left_add_shift. simpl.
  unfold spec.lag_sq, spec.wrapped. rewrite <- (combine_nth_seq P c Hl).
  rewrite !map_map. reflexivity.
Qed.

Lemma distance_stage (P : list Z) :
  exists diff both grid sq,
    for_range (length P) np.newaxis1 (mk_ndarray [length P] P)
      = Some (mk_ndarray (length P :: repeat 1%nat (length P)) P) /\
    np.binop 0%Z 0%Z Z.sub (mk_ndarray (length P :: repeat 1%nat (length P)) P)
      (np.mgrid P) = Some diff /\
    np.stack2 (np.mgrid P) diff = Some both /\
    np.min0 both = Some grid /\
    np.sum0 (np.map (fun x => x ^ 2)%Z grid) = Some sq /\
    shape grid = length P :: List.map Z.to_nat P /\
    lag_squares P sq.
Proof.
  set (N := length P). set (sizes := List.map Z.to_nat P).
  assert (Hsz : length sizes = N) by (unfold sizes; apply length_map).
  assert (Hg : shape (np.mgrid P) = N :: sizes) by apply shape_mgrid.
  (* the four arrays *)
  destruct (np.binop 0%Z 0%Z Z.sub (mk_ndarray (N :: repeat 1%nat N) P) (np.mgrid P))
    as [diff|] eqn:Ediff.
  2:{ unfold np.binop in Ediff. rewrite Hg in Ediff. simpl shape in Ediff.
      rewrite <- Hsz, broadcast_shapes_column in Ediff. discriminate. }
  assert (Hd : shape diff = N :: sizes).
  { unfold np.binop in Ediff. rewrite Hg in Ediff. simpl shape in Ediff.
    rewrite <- Hsz, broadcast_shapes_column in Ediff. simpl in Ediff.
    injection Ediff as <-. simpl. rewrite Hsz. reflexivity. }
  destruct (np.stack2 (np.mgrid P) diff) as [both|] eqn:Eboth.
  2:{ unfold np.stack2 in Eboth. rewrite Hg, Hd in Eboth.
      destruct (list_eq_dec Nat.eq_dec (N :: sizes) (N :: sizes)); congruence. }
  assert (Hb : shape both = 2%nat :: N :: sizes).
  { unfold np.stack2 in Eboth.
    destruct (list_eq_dec Nat.eq_dec _ _); [|discriminate].
    injection Eboth as <-. simpl. rewrite length_map. reflexivity. }
  destruct (np.min0 both) as [grid|] eqn:Egrid.
  2:{ unfold np.min0 in Egrid. rewrite Hb in Egrid. discriminate. }
  assert (Hgr : shape grid = N :: sizes /\ np.wf grid).
  { unfold np.min0 in Egrid. rewrite Hb in Egrid. injection Egrid as <-.
    split; [reflexivity|apply wf_tabulate]. }
  destruct Hgr as [Hgr Hwg].
  destruct (np.sum0 (np.map (fun x => x ^ 2)%Z grid)) as [sq|] eqn:Esq.
  2:{ unfold np.sum0 in Esq. simpl in Esq. rewrite Hgr in Esq. discriminate. }
  exists diff, both, grid, sq.
  split; [rewrite (for_range_newaxis1 N N [] P), app_nil_r; reflexivity|].
  repeat (split; [reflexivity || assumption|]).
  assert (Hs : shape sq = sizes /\ np.wf sq).
  { unfold np.sum0 in Esq. simpl in Esq. rewrite Hgr in Esq.
    injection Esq as <-. split; [reflexivity|apply wf_tabulate]. }
  destruct Hs as [Hs Hws].
  split; [exact Hs|]. split; [exact Hws|].
  intros c Hc.
  assert (Hlc : length c = N) by (rewrite (in_bounds_length Hc); exact Hsz).
  rewrite (get_sum0 (n := N) (rest := sizes) _ Esq) by (simpl; assumption).
  rewrite <- lag_sq_seq by (fold N; lia). fold N.
  f_equal. apply map_ext_in. intros k Hk. apply in_seq in Hk.
  assert (Hkc : np.in_bounds (N :: sizes) (k :: c)) by (constructor; [lia|exact Hc]).
  rewrite (get_map 0%Z) by (rewrite ?Hgr; assumption).
  f_equal.
  rewrite (get_min0_pair _ Egrid Hb Hkc).
  assert (Hwm : np.wf (np.mgrid P)) by apply wf_tabulate.
  rewrite <- Hg in Hkc.
  destruct (get_stack2 0%Z _ Eboth Hwm Hkc) as [-> ->].
  rewrite Hg in Hkc.
  rewrite get_mgrid by (fold N; fold sizes; lia || assumption).
  f_equal.
  rewrite (get_binop _ _ 0%Z _ _ _ Ediff) by (rewrite Hd; assumption).
  rewrite Hg. rewrite (broadcast_index_in_bounds Hkc).
  rewrite get_mgrid by (fold N; fold sizes; lia || assumption).
  simpl shape.
  rewrite broadcast_index_column by lia.
  unfold N. rewrite get_column. reflexivity.
Qed.

End distance.

(** ** The padder *)

Module padder.
Import spectralsim.

Lemma m8_rounded_up (dim : Z) (r : QArith_base.Q) :
  spec.rounded_up_to_8 (inject_Z dim + r) (m8 dim r).
Proof.
  unfold spec.rounded_up_to_8, m8. set (t := (inject_Z dim + r)%Q).
  split; [exists (Qceiling (t / 8)); reflexivity|]. split.
  - pose proof (Qle_ceiling (t / 8)) as H.
    set (k := Qceiling (t / 8)) in *.
    rewrite inject_Z_mult. change (inject_Z 8) with 8%Q.
    unfold Qdiv in H. change (/ 8)%Q with (1 # 8)%Q in H. lra.
  - intros m [k ->] Hm.
    apply Z.mul_le_mono_nonneg_r; [lia|].
    rewrite <- (Qceiling_Z k). apply Qceiling_resp_le.
    rewrite inject_Z_mult in Hm. change (inject_Z 8) with 8%Q in Hm.
    unfold Qdiv. change (/ 8)%Q with (1 # 8)%Q. lra.
Qed.

Lemma m8_ge_dim (dim : Z) (r : QArith_base.Q) :
  (0 <= r)%Q -> (dim <= m8 dim r)%Z.
Proof.
  intros Hr. destruct (m8_rounded_up dim r) as (_ & H & _).
  rewrite Zle_Qle. lra.
Qed.

End padder.

(** ** The constructor *)

Module construction.
Import np_facts np_ops np_entries distance spectralsim generator.
Local Open Scope py_scope.

Section Construction.

Context `{NP : numpy} {CF : covfun} {FW : pyfftw}.

Lemma length_paddedSize per ds r : length (spec.paddedSize per ds r) = length ds.
Proof. destruct per; simpl; [reflexivity|apply length_map]. Qed.

Lemma stored_cutoff_eq cm per ds r :
  (per = false -> find_maximum_range cm = Some r) ->
  (if negb per
   then cutoff <- find_maximum_range cm ;;
        Some (np.array (cutoffs ds cutoff))
   else Some (np.scalar 0%Z)) = Some (stored_cutoff per ds r).
Proof.
  intros Hr. destruct per; simpl; [reflexivity|].
  rewrite (Hr eq_refl). reflexivity.
Qed.

Lemma padded_eq per ds r :
  np.binop 0%Z 0%Z Z.add (np.array ds) (stored_cutoff per ds r) =
  Some (mk_ndarray [length ds] (spec.paddedSize per ds r)).
Proof.
  destruct per; simpl stored_cutoff; simpl spec.paddedSize.
  - rewrite (binop_1d_scalar 0%Z 0%Z Z.add (np.array ds) 0%Z (n := length ds))
      by reflexivity.
    simpl data. rewrite (map_nth_seq (fun x => x + 0)%Z).
    rewrite (map_ext _ (fun x => x)) by (intros; lia). rewrite map_id.
    reflexivity.
  - rewrite (binop_1d 0%Z 0%Z Z.add (np.array ds) (np.array (cutoffs ds r))
               (n := length ds))
      by (simpl; unfold cutoffs; rewrite ?length_map; reflexivity).
    f_equal. f_equal. simpl data. unfold cutoffs.
    rewrite (map_ext_in _ (fun i => (fun dim => m8 dim r) (nth i ds 0%Z))).
    + apply (map_nth_seq (fun dim => m8 dim r)).
    + intros i Hi. apply in_seq in Hi.
      rewrite (nth_map_in _ ds 0%Z) by lia. lia.
Qed.

Lemma default_rng_valid e sd :
  spec.valid_seed sd -> default_rng e sd = Some (seeded e sd).
Proof.
  destruct sd as [s|]; simpl; [|reflexivity].
  intros Hs. destruct (Z.ltb_spec s 0); [lia|reflexivity].
Qed.

Lemma init_unfold e ds cm per pf sd r c :
  spec.valid_seed sd -> covariance cm = Some c ->
  (per = false -> find_maximum_range cm = Some r) ->
  exists grid sq,
    shape grid = length ds :: List.map Z.to_nat (spec.paddedSize per ds r) /\
    lag_squares (spec.paddedSize per ds r) sq /\
    __init__ e ds cm per pf sd =
      ('(_, self) <- simnew (before_draw e ds cm per pf sd r c grid sq) ;;
       Some self).
Proof.
  intros Hsd Hc Hr.
  destruct (distance_stage (spec.paddedSize per ds r))
    as (diff & both & grid & sq & E1 & E2 & E3 & E4 & E5 & Hg & Hsq).
  rewrite length_paddedSize in *.
  exists grid, sq. split; [exact Hg|]. split; [exact Hsq|].
  unfold __init__.
  rewrite (stored_cutoff_eq cm ds Hr). cbn [bind].
  rewrite padded_eq. cbn [bind len shape data].
  rewrite E1. cbn [bind]. rewrite E2. cbn [bind]. rewrite E3. cbn [bind].
  rewrite E4. cbn [bind]. rewrite E5. cbn [bind].
  unfold Covariogram. rewrite Hc. cbn [bind].
  rewrite default_rng_valid by exact Hsd. cbn [bind].
  reflexivity.
Qed.

End Construction.
End construction.

(** ** One synthesis call *)

Module synthesis.
Import np_facts np_ops np_entries distance spectralsim generator construction.
Local Open Scope py_scope.

Section Synthesis.

Context `{NP : numpy} {CF : covfun} {FW : pyfftw}.

Lemma squeeze_column {A} (n : nat) (l : list A) :
  np.squeeze (mk_ndarray (n :: repeat 1%nat n) l) =
  mk_ndarray (if Nat.eqb n 1 then [] else [n]) l.
Proof.
  unfold np.squeeze. simpl. f_equal.
  assert (H : forall k, filter (fun m => negb (Nat.eqb m 1)) (repeat 1%nat k) = []).
  { induction k; simpl; auto. }
  rewrite H. destruct (Nat.eqb n 1); reflexivity.
Qed.

Lemma combine_sub_seq (P cut : list Z) :
  length cut = length P ->
  List.map (fun i => (nth i P 0 - nth i cut 0)%Z) (seq 0 (length P)) =
  List.map (fun pc => (fst pc - snd pc)%Z) (combine P cut).
Proof.
  revert cut. induction P as [|p P IH]; intros [|c cut] Hl; simpl in *;
    try reflexivity; try discriminate.
  f_equal. rewrite <- seq_shift, map_map. apply IH. lia.
Qed.

Lemma mapM_nth_error {A} (pre l : list A) :
  mapM (nth_error (pre ++ l)) (seq (length pre) (length l)) = Some l.
Proof.
  revert pre. induction l as [|x l IH]; intros pre; simpl; [reflexivity|].
  rewrite nth_error_app2 by lia. rewrite Nat.sub_diag. simpl.
  replace (pre ++ x :: l) with ((pre ++ [x]) ++ l) by (rewrite <- app_assoc; reflexivity).
  replace (S (length pre)) with (length (pre ++ [x])) by (rewrite length_app; simpl; lia).
  rewrite IH. reflexivity.
Qed.

Lemma slice_shape_crop (ds P : list Z) :
  Forall (fun d => 0 < d)%Z ds -> Forall2 Z.le ds P ->
  np.slice_shape ds (List.map Z.to_nat P) = Some (List.map Z.to_nat ds).
Proof.
  intros Hpos Hle. induction Hle as [|d p ds P Hd Hle IH]; simpl; [reflexivity|].
  inversion Hpos as [|? ? Hd0 Hpos']; subst.
  rewrite (IH Hpos'). simpl. unfold np.slice_len.
  destruct (Z.leb_spec 0 d); [|lia].
  f_equal. f_equal. lia.
Qed.

Lemma forallb_nonneg (ds : list Z) :
  Forall (fun d => 0 < d)%Z ds -> forallb (fun z => (0 <=? z)%Z) ds = true.
Proof.
  intros H. apply forallb_forall. intros z Hz.
  rewrite Forall_forall in H. apply Z.leb_le. specialize (H z Hz). lia.
Qed.

(** The crop: what is left has the requested extent. *)
Lemma crop_ok ds self (Y1 : ndarray float64) :
  laid_out ds self -> periodic self = false ->
  shape Y1 = shape (sqrtFFTQ self) ->
  crop self Y1 =
  Some (mk_ndarray (List.map Z.to_nat ds)
          (List.map (np.get zero64 Y1) (np.ndindex (List.map Z.to_nat ds)))).
Proof.
  intros ((Hne & Hpos) & Hnd & Hsh & Hlen & Hstd & Hcut) Hper HY.
  rewrite Hper in Hcut. destruct Hcut as (Hcs & Hcl & Hsub & Hle).
  unfold crop.
  assert (Hnew : np.binop 0%Z 0%Z Z.sub (np.squeeze (domainsize self)) (cutoff self)
                 = Some (mk_ndarray [length ds] ds)).
  { destruct (domainsize self) as [dsh P] eqn:ED. simpl in *. subst dsh.
    rewrite squeeze_column.
    destruct (Nat.eqb (length ds) 1) eqn:E1.
    - apply Nat.eqb_eq in E1.
      rewrite (binop_0d_1d 0%Z 0%Z Z.sub) by (simpl; congruence).
      simpl data. rewrite E1. f_equal. f_equal.
      destruct P as [|p [|? ?]]; simpl in Hlen; try lia.
      destruct (data (cutoff self)) as [|c [|? ?]]; simpl in Hcl; try lia.
      simpl in Hsub. simpl. exact Hsub.
    - rewrite (binop_1d 0%Z 0%Z Z.sub _ _ (n := length ds)) by (simpl; congruence).
      simpl data. f_equal. f_equal.
      rewrite <- Hlen, combine_sub_seq by lia. exact Hsub. }
  rewrite Hnew. cbn [bind].
  rewrite Hnd.
  assert (Hget : mapM (getitem (mk_ndarray [length ds] ds)) (seq 0 (length ds))
                 = Some ds).
  { unfold getitem. simpl shape. simpl data. apply (mapM_nth_error [] ds). }
  rewrite Hget. cbn [bind].
  unfold np.slice0. rewrite HY, Hstd.
  rewrite (slice_shape_crop Hpos Hle). cbn [bind].
  unfold np.reshape. cbn [data shape length np.tabulate].
  rewrite (forallb_nonneg Hpos), length_map, length_ndindex, Nat.eqb_refl.
  reflexivity.
Qed.

Lemma shaped_noise_ok (self : spectral_random_field) :
  exists rand,
    shaped_noise self =
      Some (rand, advance (rng self) (shape (sqrtFFTQ self))) /\
    shape rand = shape (sqrtFFTQ self) /\ np.wf rand.
Proof.
  unfold shaped_noise, advance, standard_normal.
  set (s := shape (sqrtFFTQ self)).
  destruct (normal_data (rng self) (np.prod s)) as [xs g1].
  simpl snd.
  destruct (normal_data g1 (np.prod s)) as [ys g2].
  simpl snd.
  destruct (binop_same_shape zero32 zero32 complex_
              (mk_ndarray s xs) (mk_ndarray s ys) eq_refl)
    as (eps & Heps & Hse & _).
  rewrite Heps. cbn [bind].
  destruct (binop_same_shape zeroc zero64 cmultiply eps (sqrtFFTQ self))
    as (rand & Hrand & Hsr & Hwf); [exact Hse|].
  rewrite Hrand. cbn [bind]. exists rand.
  split; [reflexivity|]. split; [rewrite Hsr, Hse; reflexivity|exact Hwf].
Qed.

End Synthesis.
End synthesis.

Module calls.
Import np_facts np_ops np_entries distance spectralsim generator construction synthesis.
Local Open Scope py_scope.

Section Calls.

Context `{NP : numpy} {CF : covfun} {FW : pyfftw}.

Lemma laid_out_set_draw ds self c g y :
  laid_out ds self -> laid_out ds (set_draw self c g y).
Proof. intros H. exact H. Qed.

Lemma pair_eq {A R} (K : ndarray A -> option R) (Y1 Y2 : ndarray A)
    (s : list nat) :
  shape Y1 = s -> shape Y2 = s -> s <> [] ->
  (A <- np.newaxis0 Y1 ;; B <- np.newaxis0 Y2 ;;
   Y' <- np.concatenate0 A B ;; K Y')
  = K (mk_ndarray (2%nat :: s) (data Y1 ++ data Y2)).
Proof.
  intros H1 H2 Hs. unfold np.newaxis0. rewrite H1, H2.
  destruct s as [|n s]; [congruence|]. cbn [bind].
  unfold np.concatenate0. cbn [shape data].
  destruct (list_eq_dec Nat.eq_dec (n :: s) (n :: s)); [reflexivity|congruence].
Qed.

(** Both synthesis operations, from one state. *)
Lemma simnew_eq (self : spectral_random_field) :
  exists rand,
    shape rand = shape (sqrtFFTQ self) /\ np.wf rand /\
    let g := advance (rng self) (shape (sqrtFFTQ self)) in
    let c := (counter self + 1)%Z in
    let Y1 := times_npoints self (np.map real (transformed self rand)) in
    let Y2 := times_npoints self (np.map imag (transformed self rand)) in
    simnew self =
      ('(Y1, Y2) <- (if negb (periodic self)
                     then Y1' <- crop self Y1 ;;
                          Y2' <- crop self Y2 ;;
                          Some (Y1', Y2')
                     else Some (Y1, Y2)) ;;
       A <- np.newaxis0 Y1 ;;
       B <- np.newaxis0 Y2 ;;
       Y' <- np.concatenate0 A B ;;
       Some (Y', set_draw self c g Y')) /\
    simnew_real self =
      (Y' <- (if negb (periodic self) then crop self Y1 else Some Y1) ;;
       Some (Y', set_draw self c g Y')).
Proof.
  destruct (shaped_noise_ok self) as (rand & Hn & Hs & Hw).
  exists rand. split; [exact Hs|]. split; [exact Hw|].
  unfold simnew, simnew_real, transformed. rewrite Hn. cbn [bind].
  destruct (pyfftwmode self); split; reflexivity.
Qed.

Lemma simnew_ok ds (self : spectral_random_field) :
  laid_out ds self ->
  exists A B,
    shape A = List.map Z.to_nat ds /\ shape B = List.map Z.to_nat ds /\
    let g := advance (rng self) (shape (sqrtFFTQ self)) in
    let c := (counter self + 1)%Z in
    let Y' := mk_ndarray (2%nat :: List.map Z.to_nat ds) (data A ++ data B) in
    simnew self = Some (Y', set_draw self c g Y') /\
    simnew_real self = Some (A, set_draw self c g A).
Proof.
  intros Hlo.
  destruct (simnew_eq self) as (rand & Hs & Hw & Hsim & Hreal).
  cbv zeta in Hsim, Hreal. rewrite Hsim, Hreal. clear Hsim Hreal.
  pose proof Hlo as ((Hne & Hpos) & Hnd & Hsh & Hlen & Hstd & Hcut).
  assert (Hnz : List.map Z.to_nat ds <> []).
  { destruct ds; [congruence|discriminate]. }
  set (Y1 := times_npoints self (np.map real (transformed self rand))).
  set (Y2 := times_npoints self (np.map imag (transformed self rand))).
  assert (HY1 : shape Y1 = shape (sqrtFFTQ self)).
  { unfold Y1, transformed. destruct (pyfftwmode self); simpl; exact Hs. }
  assert (HY2 : shape Y2 = shape (sqrtFFTQ self)).
  { unfold Y2, transformed. destruct (pyfftwmode self); simpl; exact Hs. }
  destruct (periodic self) eqn:Hper; cbn [negb bind].
  - exists Y1, Y2. rewrite Hcut in Hstd.
    split; [congruence|]. split; [congruence|]. cbv zeta.
    rewrite (pair_eq (fun Y' => Some (Y', set_draw self _ _ Y')) Y1 Y2
               (s := List.map Z.to_nat ds)) by congruence.
    split; reflexivity.
  - rewrite (crop_ok Y1 Hlo Hper HY1), (crop_ok Y2 Hlo Hper HY2). cbn [bind].
    exists (mk_ndarray (List.map Z.to_nat ds)
              (List.map (np.get zero64 Y1) (np.ndindex (List.map Z.to_nat ds)))),
           (mk_ndarray (List.map Z.to_nat ds)
              (List.map (np.get zero64 Y2) (np.ndindex (List.map Z.to_nat ds)))).
    split; [reflexivity|]. split; [reflexivity|]. cbv zeta.
    rewrite (pair_eq (fun Y' => Some (Y', set_draw self _ _ Y')) _ _
               (s := List.map Z.to_nat ds)) by (reflexivity || exact Hnz).
    split; reflexivity.
Qed.

End Calls.
End calls.

(** ** The constructed generator and its calls *)

Module lifecycle.
Import np_facts np_ops np_entries distance padder spectralsim generator
  construction synthesis calls.
Local Open Scope py_scope.

Section Lifecycle.

Context `{NP : numpy} {CF : covfun} {FW : pyfftw}.

Lemma of_nat_to_nat (ds : list Z) :
  Forall (fun d => 0 < d)%Z ds -> List.map Z.of_nat (List.map Z.to_nat ds) = ds.
Proof.
  intros H. induction H as [|d ds Hd H IH]; simpl; [reflexivity|].
  rewrite IH. f_equal. lia.
Qed.

Lemma combine_cutoffs (ds : list Z) (r : QArith_base.Q) :
  List.map (fun pc => (fst pc - snd pc)%Z)
    (combine (List.map (fun dim => m8 dim r) ds) (cutoffs ds r)) = ds.
Proof.
  unfold cutoffs. induction ds as [|d ds IH]; simpl; [reflexivity|].
  rewrite IH. f_equal. lia.
Qed.

Lemma padded_ge (ds : list Z) (r : QArith_base.Q) :
  (0 <= r)%Q -> Forall2 Z.le ds (List.map (fun dim => m8 dim r) ds).
Proof.
  intros Hr. induction ds as [|d ds IH]; simpl; constructor;
    [apply m8_ge_dim; exact Hr | exact IH].
Qed.

Lemma before_draw_laid_out e ds cm per pf sd r c grid sq :
  spec.valid_grid_shape ds -> (per = false -> (0 <= r)%Q) ->
  shape sq = List.map Z.to_nat (spec.paddedSize per ds r) ->
  laid_out ds (before_draw e ds cm per pf sd r c grid sq).
Proof.
  intros Hv Hr Hsq. unfold laid_out, before_draw. cbn [ndim domainsize shape
    data sqrtFFTQ periodic cutoff np.map fftn].
  split; [exact Hv|]. split; [reflexivity|]. split; [reflexivity|].
  split; [apply length_paddedSize|]. split; [exact Hsq|].
  destruct per; simpl; [reflexivity|].
  unfold cutoffs at 1 2. rewrite !length_map.
  split; [reflexivity|]. split; [reflexivity|].
  split; [apply combine_cutoffs|apply padded_ge; auto].
Qed.

(** The constructor returns, and this is the object it returns. *)
Lemma init_ok e ds cm per pf sd r c :
  spec.valid_grid_shape ds -> spec.valid_seed sd -> covariance cm = Some c ->
  (per = false -> find_maximum_range cm = Some r /\ (0 <= r)%Q) ->
  exists grid sq A B,
    shape grid = length ds :: List.map Z.to_nat (spec.paddedSize per ds r) /\
    lag_squares (spec.paddedSize per ds r) sq /\
    shape A = List.map Z.to_nat ds /\ shape B = List.map Z.to_nat ds /\
    let self0 := before_draw e ds cm per pf sd r c grid sq in
    let Y0 := mk_ndarray (2%nat :: List.map Z.to_nat ds) (data A ++ data B) in
    laid_out ds self0 /\
    simnew self0 =
      Some (Y0, set_draw self0 1%Z
                  (advance (seeded e sd) (shape (sqrtFFTQ self0))) Y0) /\
    __init__ e ds cm per pf sd =
      Some (set_draw self0 1%Z
              (advance (seeded e sd) (shape (sqrtFFTQ self0))) Y0).
Proof.
  intros Hv Hsd Hc Hr.
  destruct (@init_unfold _ _ _ e ds cm per pf sd r c Hsd Hc)
    as (grid & sq & Hg & Hsq & Hinit); [intros Hp; apply Hr, Hp|].
  assert (Hlo : laid_out ds (before_draw e ds cm per pf sd r c grid sq)).
  { apply before_draw_laid_out; [exact Hv| intros Hp; apply Hr, Hp |apply Hsq]. }
  destruct (simnew_ok Hlo) as (A & B & HA & HB & Hsim & _).
  cbv zeta in Hsim. cbn [counter rng before_draw] in Hsim.
  exists grid, sq, A, B.
  split; [exact Hg|]. split; [exact Hsq|]. split; [exact HA|].
  split; [exact HB|].
  cbv zeta. split; [exact Hlo|]. split; [exact Hsim|].
  rewrite Hinit, Hsim. reflexivity.
Qed.

Lemma returned_shape_simnew ds (A B : list float64) :
  Forall (fun d => 0 < d)%Z ds ->
  returned_shape ds call_simnew
    (mk_ndarray (2%nat :: List.map Z.to_nat ds) (A ++ B)).
Proof.
  intros Hpos. unfold returned_shape, np.item. cbn [shape data].
  eexists. eexists. split; [reflexivity|]. split; [reflexivity|].
  unfold spec.extents. cbn [shape]. rewrite of_nat_to_nat by assumption.
  split; reflexivity.
Qed.

(** Every call on a laid-out generator returns, with the shape law. *)
Lemma run_ok ds (calls : list call) :
  forall self, laid_out ds self ->
  exists ys self',
    run calls self = Some (ys, self') /\
    Forall2 (returned_shape ds) calls ys /\ laid_out ds self'.
Proof.
  induction calls as [|c calls IH]; intros self Hlo.
  - exists [], self. split; [reflexivity|]. split; [constructor|exact Hlo].
  - destruct (simnew_ok Hlo) as (A & B & HA & HB & Hsim & Hreal).
    cbv zeta in Hsim, Hreal.
    pose proof Hlo as ((_ & Hpos) & _).
    destruct c; cbn [run do_call].
    + rewrite Hsim. cbn [bind].
      destruct (IH _ (laid_out_set_draw (counter self + 1)%Z
                        (advance (rng self) (shape (sqrtFFTQ self)))
                        (mk_ndarray (2%nat :: List.map Z.to_nat ds)
                           (data A ++ data B)) Hlo))
        as (ys & self' & Hrun & Hys & Hlo').
      rewrite Hrun. cbn [bind]. eexists. eexists.
      split; [reflexivity|]. split; [|exact Hlo'].
      constructor; [apply returned_shape_simnew; exact Hpos|exact Hys].
    + rewrite Hreal. cbn [bind].
      destruct (IH _ (laid_out_set_draw (counter self + 1)%Z
                        (advance (rng self) (shape (sqrtFFTQ self))) A Hlo))
        as (ys & self' & Hrun & Hys & Hlo').
      rewrite Hrun. cbn [bind]. eexists. eexists.
      split; [reflexivity|]. split; [|exact Hlo'].
      constructor; [|exact Hys].
      unfold returned_shape, spec.extents. rewrite HA.
      apply of_nat_to_nat. exact Hpos.
Qed.

(** A call changes the draw counter, the random stream and the last-result
    slot, whatever the state it starts from. *)
Lemma simnew_frame self Y' self' :
  simnew self = Some (Y', self') ->
  self' = set_draw self (counter self + 1)%Z
            (advance (rng self) (shape (sqrtFFTQ self))) Y'.
Proof.
  destruct (simnew_eq self) as (rand & _ & _ & Hsim & _).
  cbv zeta in Hsim. rewrite Hsim. clear Hsim. unfold bind.
  destruct (if negb (periodic self) then _ else _) as [[Y1 Y2]|]; [|discriminate].
  destruct (np.newaxis0 Y1); [|discriminate].
  destruct (np.newaxis0 Y2); [|discriminate].
  destruct (np.concatenate0 _ _); [|discriminate].
  intros E. injection E as <- <-. reflexivity.
Qed.

Lemma simnew_real_frame self Y' self' :
  simnew_real self = Some (Y', self') ->
  self' = set_draw self (counter self + 1)%Z
            (advance (rng self) (shape (sqrtFFTQ self))) Y'.
Proof.
  destruct (simnew_eq self) as (rand & _ & _ & _ & Hreal).
  cbv zeta in Hreal. rewrite Hreal. clear Hreal. unfold bind.
  destruct (if negb (periodic self) then _ else _); [|discriminate].
  intros E. injection E as <- <-. reflexivity.
Qed.

End Lifecycle.
End lifecycle.

(** ** The specification of the generator *)

Module spectralsim_spec.
Import np_facts np_ops np_entries distance padder spectralsim generator
  construction synthesis calls lifecycle.
Local Open Scope py_scope.

Section Specification.

Context `{NP : numpy} {CF : covfun} {FW : pyfftw}.

Lemma fold_left_mul_shift (l : list Z) (a : Z) :
  fold_left Z.mul l a = (a * fold_right Z.mul 1 l)%Z.
Proof.
  revert a. induction l as [|x l IH]; intros a; simpl; [lia|].
  rewrite IH. lia.
Qed.

Lemma elementCount_pos (P : list Z) :
  Forall (fun p => 0 < p)%Z P -> (0 < spec.elementCount P)%Z.
Proof.
  intros H. unfold spec.elementCount.
  induction H as [|p P Hp H IH]; simpl; lia.
Qed.

Lemma paddedSize_pos per ds r :
  Forall (fun d => 0 < d)%Z ds -> (per = false -> (0 <= r)%Q) ->
  Forall (fun p => 0 < p)%Z (spec.paddedSize per ds r).
Proof.
  intros Hpos Hr. destruct per; simpl; [exact Hpos|].
  apply Forall_map. eapply Forall_impl; [|exact Hpos].
  intros d Hd. pose proof (m8_ge_dim d (Hr eq_refl)) as Hm.
  cbv beta in Hd |- *. lia.
Qed.

Lemma binop_0d_0d {A B C} (da : A) (db : B) (f : A -> B -> C) a b :
  shape a = [] -> shape b = [] ->
  np.binop da db f a b =
  Some (mk_ndarray [] [f (nth 0 (data a) da) (nth 0 (data b) db)]).
Proof.
  intros Ea Eb. unfold np.binop, np.broadcast_shapes, np.tabulate, np.get.
  rewrite Ea, Eb. reflexivity.
Qed.


(** C5. For a periodic configuration the constructor returns; the cutoff is
    the scalar zero, which is zero on every axis, the stored padded size is
    the requested extent entry by entry, and the object is the same whatever
    the range lookup would answer: the lookup is not consulted. *)
Theorem padded_size_periodic e ds cm pf sd c :
  spec.valid_grid_shape ds -> spec.valid_seed sd ->
  covariance cm = Some c ->
  exists self,
    __init__ e ds cm true pf sd = Some self /\
    cutoff self = np.scalar 0%Z /\
    (forall i, np.get 0%Z (cutoff self)
                 (np.broadcast_index (shape (cutoff self)) [i]) = 0%Z) /\
    data (domainsize self) = ds /\
    np.binop 0%Z 0%Z Z.add (np.array ds) (cutoff self) = Some (np.array ds) /\
    forall lookup : String.string -> option QArith_base.Q,
      @__init__ NP (@Build_covfun NP lookup covariance) FW e ds cm true pf sd
      = Some self.
Proof.
  intros Hv Hsd Hc.
  destruct (@init_ok _ _ _ e ds cm true pf sd 0%Q c Hv Hsd Hc)
    as (grid & sq & A & B & _ & _ & _ & _ & _ & _ & Hinit); [discriminate|].
  eexists. split; [exact Hinit|].
  cbn [cutoff domainsize set_draw before_draw stored_cutoff data spec.paddedSize].
  split; [reflexivity|]. split; [reflexivity|]. split; [reflexivity|].
  split; [exact (padded_eq true ds 0%Q)|].
  intros lookup. rewrite <- Hinit. reflexivity.
Qed.


(** C1. The constructor returns; the spectral standard deviation is the
    entry-wise square root of the entry-wise magnitude of the forward
    transform of the covariance array [Q], divided by the element count,
    which is the product of the padded size; it has the shape of the padded
    size and no entry below zero, and no operand of the square root is below
    zero. *)
Theorem spectral_std_dev {NO : numpy_order} e ds cm per pf sd r c :
  spec.valid_grid_shape ds -> spec.valid_seed sd ->
  covariance cm = Some c ->
  (per = false -> find_maximum_range cm = Some r /\ (0 <= r)%Q) ->
  exists self,
    __init__ e ds cm per pf sd = Some self /\
    let paddedSize := spec.paddedSize per ds r in
    let elementCount := spec.elementCount paddedSize in
    let magnitude := np.map absolute (fftn (Q self)) in
    let quotient :=
      np.map (fun x => true_divide x (float_ elementCount)) magnitude in
    data (domainsize self) = paddedSize /\
    Covariogram (h self) cm = Some (Q self) /\
    FFTQ self = magnitude /\
    npoints self = elementCount /\ (0 < elementCount)%Z /\
    sqrtFFTQ self = np.map sqrt quotient /\
    spec.extents (sqrtFFTQ self) = paddedSize /\
    Forall (fun x => lt_zero x = false) (data quotient) /\
    Forall (fun x => lt_zero x = false) (data (sqrtFFTQ self)).
Proof.
  intros Hv Hsd Hc Hr.
  destruct (@init_ok _ _ _ e ds cm per pf sd r c Hv Hsd Hc Hr)
    as (grid & sq & A & B & _ & (Hs & _ & _) & _ & _ & _ & _ & Hinit).
  eexists. split; [exact Hinit|].
  assert (Hpos : Forall (fun p => 0 < p)%Z (spec.paddedSize per ds r)).
  { apply paddedSize_pos; [apply Hv|intros Hp; apply Hr, Hp]. }
  assert (Hn : fold_left Z.mul (spec.paddedSize per ds r) 1%Z
               = spec.elementCount (spec.paddedSize per ds r)).
  { rewrite fold_left_mul_shift. unfold spec.elementCount. lia. }
  cbv zeta.
  cbn [h Q FFTQ npoints sqrtFFTQ domainsize data set_draw before_draw].
  rewrite Hn. split; [reflexivity|].
  split; [unfold Covariogram; rewrite Hc; reflexivity|].
  split; [reflexivity|]. split; [reflexivity|].
  split; [apply elementCount_pos; exact Hpos|].
  split; [reflexivity|]. split.
  - unfold spec.extents. cbn [shape np.map fftn]. rewrite Hs.
    apply of_nat_to_nat. exact Hpos.
  - assert (Hq : Forall (fun x => lt_zero x = false)
             (data (np.map
                (fun x => true_divide x
                   (float_ (spec.elementCount (spec.paddedSize per ds r))))
                (np.map absolute
                   (fftn (np.map c (np.map (fun x => sqrt (float_ x)) sq))))))).
    { cbn [data np.map]. apply Forall_map, Forall_map.
      apply Forall_forall. intros z _.
      apply true_divide_not_lt_zero;
        [apply absolute_not_lt_zero|apply elementCount_pos; exact Hpos]. }
    split; [exact Hq|].
    cbn [data np.map] in Hq |- *. apply Forall_map.
    eapply Forall_impl; [|exact Hq].
    intros x Hx. apply sqrt_not_lt_zero. exact Hx.
Qed.

(** C2. The constructor returns, and every realization a sequence of
    synthesis calls returns has the requested extent: the single field of
    [simnew_real], each of the two fields of [simnew], and the pair the
    constructor drew itself.  Without periodicity a field of the padded shape
    is cropped to its first [domainSize_i] entries along each axis. *)
Theorem shape_law e ds cm per pf sd r c :
  spec.valid_grid_shape ds -> spec.valid_seed sd ->
  covariance cm = Some c ->
  (per = false -> find_maximum_range cm = Some r /\ (0 <= r)%Q) ->
  exists self Y0,
    __init__ e ds cm per pf sd = Some self /\
    Y self = Some Y0 /\ returned_shape ds call_simnew Y0 /\
    (forall calls, exists ys self',
       run calls self = Some (ys, self') /\
       Forall2 (returned_shape ds) calls ys) /\
    (per = false ->
     forall F : ndarray float64,
       spec.extents F = spec.paddedSize per ds r ->
       exists F', crop self F = Some F' /\ spec.extents F' = ds /\
                  forall idx, np.in_bounds (shape F') idx ->
                    np.get zero64 F' idx = np.get zero64 F idx).
Proof.
  intros Hv Hsd Hc Hr.
  destruct (@init_ok _ _ _ e ds cm per pf sd r c Hv Hsd Hc Hr)
    as (grid & sq & A & B & _ & (Hs & _ & _) & _ & _ & Hlo & _ & Hinit).
  cbv zeta in Hlo, Hinit.
  eexists. eexists. split; [exact Hinit|]. split; [reflexivity|].
  split; [apply returned_shape_simnew, Hv|].
  match type of Hinit with _ = Some (set_draw ?s ?k ?g ?y) =>
    pose proof (laid_out_set_draw k g y Hlo) as Hlo1 end.
  split.
  - intros calls. destruct (run_ok calls Hlo1) as (ys & self' & Hrun & Hys & _).
    exists ys, self'. split; assumption.
  - intros Hper F HF.
    assert (HF' : shape F = List.map Z.to_nat (spec.paddedSize per ds r)).
    { unfold spec.extents in HF. rewrite <- HF, map_map.
      rewrite (map_ext _ (fun n => n)) by (intros; apply Nat2Z.id).
      symmetry. apply map_id. }
    eexists. split.
    + apply (crop_ok F Hlo1); [subst per; reflexivity|].
      rewrite HF'. cbn [sqrtFFTQ set_draw before_draw shape np.map fftn].
      symmetry. exact Hs.
    + split.
      * unfold spec.extents. cbn [shape]. apply of_nat_to_nat, Hv.
      * intros idx Hidx. cbn [shape] in Hidx.
        apply (get_tabulate zero64 (np.get zero64 F) Hidx).
Qed.


Lemma item_first {A} (a b : list A) (s : list nat) :
  length a = np.prod s ->
  np.item (mk_ndarray (2%nat :: s) (a ++ b)) 0 = Some (mk_ndarray s a).
Proof.
  intros Hl. unfold np.item. cbn [shape data Nat.ltb Nat.leb Nat.mul skipn].
  rewrite <- Hl, firstn_app, Nat.sub_diag, firstn_all. simpl.
  rewrite app_nil_r. reflexivity.
Qed.

(** C7. From one state of the generator [simnew_real] returns field A of
    what [simnew] returns: both shape the same noise, transform it once as a
    complex array and post-process the real part; [simnew] stacks it with
    the post-processed imaginary part, which [simnew_real] leaves out.  Both
    leave the random stream after the same two draws and the counter at the
    same value. *)
Theorem simnew_real_is_field_A self Y' self1 :
  simnew self = Some (Y', self1) ->
  exists rand A B,
    let g := advance (rng self) (shape (sqrtFFTQ self)) in
    let field := transformed self rand in
    shaped_noise self = Some (rand, g) /\
    postprocess self (times_npoints self (np.map real field)) = Some A /\
    postprocess self (times_npoints self (np.map imag field)) = Some B /\
    shape Y' = 2%nat :: shape A /\ data Y' = data A ++ data B /\
    (np.wf A -> np.item Y' 0 = Some A) /\
    simnew_real self = Some (A, set_draw self (counter self + 1)%Z g A) /\
    self1 = set_draw self (counter self + 1)%Z g Y'.
Proof.
  intros Hsim. pose proof (simnew_frame _ Hsim) as Hframe.
  destruct (shaped_noise_ok self) as (rand & Hn & _ & _).
  unfold simnew, simnew_real in *. rewrite Hn in *. cbn [bind] in *.
  exists rand.
  fold (transformed self rand) in Hsim.
  assert (Hpair :
    (if pyfftwmode self
     then (times_npoints self (np.map real (pyfftw_ifftn rand)),
           times_npoints self (np.map imag (pyfftw_ifftn rand)))
     else (times_npoints self (np.map real (ifftn rand)),
           times_npoints self (np.map imag (ifftn rand))))
    = (times_npoints self (np.map real (transformed self rand)),
       times_npoints self (np.map imag (transformed self rand)))).
  { unfold transformed. destruct (pyfftwmode self); reflexivity. }
  rewrite Hpair in Hsim. clear Hpair.
  assert (Hone :
    (if pyfftwmode self
     then times_npoints self (np.map real (pyfftw_ifftn rand))
     else times_npoints self (np.map real (ifftn rand)))
    = times_npoints self (np.map real (transformed self rand))).
  { unfold transformed. destruct (pyfftwmode self); reflexivity. }
  rewrite Hone. clear Hone.
  set (Y1 := times_npoints self (np.map real (transformed self rand))) in *.
  set (Y2 := times_npoints self (np.map imag (transformed self rand))) in *.
  fold (postprocess self Y1).
  assert (Hpost :
    (if negb (periodic self)
     then Y1' <- crop self Y1 ;; Y2' <- crop self Y2 ;; Some (Y1', Y2')
     else Some (Y1, Y2))
    = (A <- postprocess self Y1 ;; B <- postprocess self Y2 ;; Some (A, B))).
  { unfold postprocess. destruct (periodic self); reflexivity. }
  rewrite Hpost in Hsim. clear Hpost.
  destruct (postprocess self Y1) as [A|]; [|discriminate].
  destruct (postprocess self Y2) as [B|]; [|discriminate].
  cbn [bind] in Hsim |- *. exists A, B. cbv zeta.
  split; [reflexivity|]. split; [reflexivity|]. split; [reflexivity|].
  unfold np.newaxis0, np.concatenate0 in Hsim.
  destruct (shape A) as [|n s] eqn:EA; [discriminate|].
  destruct (shape B) as [|m t] eqn:EB; [discriminate|].
  cbn [bind shape data] in Hsim.
  destruct (list_eq_dec Nat.eq_dec (n :: s) (m :: t)) as [E|]; [|discriminate].
  injection Hsim as HY _. subst Y'. cbn [shape data].
  split; [reflexivity|]. split; [reflexivity|].
  split; [|split; [reflexivity|exact Hframe]].
  intros Hwf. unfold np.wf in Hwf. rewrite EA in Hwf.
  rewrite (@item_first _ (data A) (data B) (n :: s) Hwf). f_equal.
  destruct A as [sa da]. simpl in *. congruence.
Qed.

(** C8. A call of either synthesis operation adds one to the draw counter,
    leaves the random stream after its two draws and the result in the
    last-result slot, and changes nothing else of the generator. *)
Theorem synthesis_frame self Y' self' :
  simnew self = Some (Y', self') \/ simnew_real self = Some (Y', self') ->
  counter self' = (counter self + 1)%Z /\
  rng self' = advance (rng self) (shape (sqrtFFTQ self)) /\
  Y self' = Some Y' /\
  sqrtFFTQ self' = sqrtFFTQ self /\
  domainsize self' = domainsize self /\
  cutoff self' = cutoff self /\
  periodic self' = periodic self /\
  covmod self' = covmod self /\
  h self' = h self /\
  Q self' = Q self /\
  FFTQ self' = FFTQ self /\
  npoints self' = npoints self /\
  ndim self' = ndim self /\
  grid self' = grid self /\
  pyfftwmode self' = pyfftwmode self /\
  seed self' = seed self /\
  xyz self' = xyz self.
Proof.
  intros [H|H];
    [apply simnew_frame in H | apply simnew_real_frame in H];
    subst self'; repeat split; reflexivity.
Qed.

(** C9. The constructor performs one dual-field draw itself: the object it
    returns has its counter at 1, its random stream after that first draw
    and the drawn pair in its last-result slot; the next synthesis call, of
    either operation, returns, is the second draw of the stream and leaves
    the counter at 2. *)
Theorem construction_draws_once e ds cm per pf sd r c :
  spec.valid_grid_shape ds -> spec.valid_seed sd ->
  covariance cm = Some c ->
  (per = false -> find_maximum_range cm = Some r /\ (0 <= r)%Q) ->
  exists self0 self Y0,
    __init__ e ds cm per pf sd = Some self /\
    counter self0 = 0%Z /\ Y self0 = None /\
    default_rng e sd = Some (rng self0) /\
    simnew self0 = Some (Y0, self) /\
    counter self = 1%Z /\ Y self = Some Y0 /\
    let s := shape (sqrtFFTQ self) in
    rng self = advance (seeded e sd) s /\
    forall next : call, exists Y1 self1,
      do_call next self = Some (Y1, self1) /\
      counter self1 = 2%Z /\
      rng self1 = advance (advance (seeded e sd) s) s.
Proof.
  intros Hv Hsd Hc Hr.
  destruct (@init_ok _ _ _ e ds cm per pf sd r c Hv Hsd Hc Hr)
    as (grid & sq & A & B & _ & _ & _ & _ & Hlo & Hsim & Hinit).
  cbv zeta in Hlo, Hsim, Hinit.
  exists (before_draw e ds cm per pf sd r c grid sq).
  eexists. eexists. split; [exact Hinit|].
  split; [reflexivity|]. split; [reflexivity|].
  split; [apply default_rng_valid; exact Hsd|].
  split; [exact Hsim|]. split; [reflexivity|]. split; [reflexivity|].
  cbv zeta. split; [reflexivity|].
  match type of Hinit with _ = Some (set_draw ?s0 ?k ?g ?y) =>
    destruct (simnew_ok (laid_out_set_draw k g y Hlo))
      as (A1 & B1 & _ & _ & Hpair & Hsingle) end.
  cbv zeta in Hpair, Hsingle.
  intros [|]; cbn [do_call]; eexists; eexists;
    (split; [eassumption|split; reflexivity]).
Qed.

(** C10. The stored [domainsize] is not the requested extent: it holds the
    requested extent plus the cutoff, as a column with one unit axis added
    per dimension.  The requested extent is its squeezed value minus the
    cutoff, which the crop of a synthesis call computes again. *)
Theorem stored_domainsize e ds cm per pf sd r c :
  spec.valid_grid_shape ds -> spec.valid_seed sd ->
  covariance cm = Some c ->
  (per = false -> find_maximum_range cm = Some r /\ (0 <= r)%Q) ->
  exists self v,
    __init__ e ds cm per pf sd = Some self /\
    shape (domainsize self) = length ds :: repeat 1%nat (length ds) /\
    np.binop 0%Z 0%Z Z.add (np.array ds) (cutoff self) =
      Some (mk_ndarray [length ds] (data (domainsize self))) /\
    domainsize self <> np.array ds /\
    np.binop 0%Z 0%Z Z.sub (np.squeeze (domainsize self)) (cutoff self)
      = Some v /\
    data v = ds /\
    (per = false ->
     v = np.array ds /\
     forall F : ndarray float64,
       shape F = shape (sqrtFFTQ self) ->
       exists F', crop self F = Some F' /\ spec.extents F' = ds).
Proof.
  intros Hv Hsd Hc Hr.
  destruct (@init_ok _ _ _ e ds cm per pf sd r c Hv Hsd Hc Hr)
    as (grid & sq & A & B & _ & _ & _ & _ & Hlo & _ & Hinit).
  cbv zeta in Hlo, Hinit.
  match type of Hinit with _ = Some (set_draw ?s0 ?k ?g ?y) =>
    pose proof (laid_out_set_draw k g y Hlo) as Hlo1 end.
  destruct Hv as (Hne & Hpos).
  assert (Hsub : exists v,
    np.binop 0%Z 0%Z Z.sub
      (np.squeeze (mk_ndarray (length ds :: repeat 1%nat (length ds))
                     (spec.paddedSize per ds r)))
      (stored_cutoff per ds r) = Some v /\ data v = ds /\
    (per = false -> v = np.array ds)).
  { rewrite squeeze_column. destruct per.
    - cbn [stored_cutoff spec.paddedSize].
      destruct (Nat.eqb (length ds) 1) eqn:E1.
      + rewrite (binop_0d_0d 0%Z 0%Z Z.sub) by reflexivity.
        eexists. split; [reflexivity|]. split; [|discriminate].
        apply Nat.eqb_eq in E1. destruct ds as [|d [|? ?]]; try discriminate.
        simpl. f_equal. lia.
      + rewrite (binop_1d_scalar 0%Z 0%Z Z.sub _ 0%Z (n := length ds))
          by reflexivity.
        eexists. split; [reflexivity|]. split; [|discriminate].
        cbn [data]. rewrite (map_nth_seq (fun x => x - 0)%Z).
        rewrite (map_ext _ (fun x => x)) by (intros; lia). apply map_id.
    - cbn [stored_cutoff spec.paddedSize].
      assert (Hd : List.map (fun i =>
                     (nth i (List.map (fun dim => m8 dim r) ds) 0
                      - nth i (cutoffs ds r) 0)%Z) (seq 0 (length ds)) = ds).
      { rewrite <- (length_map (fun dim => m8 dim r) ds) at 1.
        rewrite combine_sub_seq
          by (unfold cutoffs; rewrite !length_map; reflexivity).
        apply combine_cutoffs. }
      destruct (Nat.eqb (length ds) 1) eqn:E1.
      + apply Nat.eqb_eq in E1.
        rewrite (binop_0d_1d 0%Z 0%Z Z.sub)
          by (try reflexivity; simpl; unfold cutoffs; rewrite length_map, E1;
              reflexivity).
        rewrite E1 in Hd. simpl in Hd.
        eexists. split; [reflexivity|]. cbn [data]. split; [exact Hd|].
        intros _. unfold np.array. rewrite E1. f_equal. exact Hd.
      + rewrite (binop_1d 0%Z 0%Z Z.sub _ _ (n := length ds))
          by (try reflexivity; simpl; unfold cutoffs; rewrite length_map;
              reflexivity).
        unfold np.array. cbn [data]. rewrite Hd.
        eexists. split; [reflexivity|]. split; [reflexivity|].
        intros _. reflexivity. }
  destruct Hsub as (v & Hv1 & Hv2 & Hv3).
  eexists. exists v. split; [exact Hinit|].
  cbn [domainsize cutoff set_draw before_draw shape data].
  split; [reflexivity|]. split; [apply padded_eq|]. split.
  - unfold np.array. intros E. injection E as E1 _.
    destruct ds; [congruence|discriminate].
  - split; [exact Hv1|]. split; [exact Hv2|].
    intros Hper. split; [exact (Hv3 Hper)|].
    intros F HF. eexists. split.
    + apply (crop_ok F Hlo1); [subst per; reflexivity|exact HF].
    + unfold spec.extents. cbn [shape]. apply of_nat_to_nat, Hpos.
Qed.

End Specification.
End spectralsim_spec.

(** ** The order of binary64

    The sign laws of [numpy_order] hold of the IEEE arithmetic of the
    executable instance. *)

Module binary64_order.

Lemma ltb_zero (x : float) :
  PrimFloat.ltb x 0%float = false <-> binary64.not_below_zero (Prim2SF x).
Proof.
  rewrite ltb_spec. change (Prim2SF 0%float) with (S754_zero false).
  destruct (Prim2SF x) as [[|]|[|]| |[|] m e];
    cbv [SFltb SFcompare binary64.not_below_zero];
    split; intros H; try exact I; try reflexivity; try discriminate;
    try contradiction.
Qed.

Lemma round_keeps_sign prec emax m e l :
  binary64.sign_clear (binary_round_aux prec emax false m e l).
Proof.
  unfold binary_round_aux.
  destruct (shr_fexp prec emax m e l) as [mrs' e'].
  destruct (shr_fexp prec emax _ e' loc_Exact) as [mrs'' e''].
  destruct (shr_m mrs''); simpl; trivial.
  destruct (Z.leb e'' (emax - prec)); simpl; trivial.
Qed.

Lemma sign_clear_not_below s : binary64.sign_clear s -> binary64.not_below_zero s.
Proof. destruct s as [[|]|[|]| |[|] m e]; simpl; tauto. Qed.

Lemma sqrt_not_below (x : float) :
  PrimFloat.ltb (PrimFloat.sqrt x) 0%float = false.
Proof.
  apply ltb_zero. rewrite sqrt_spec. unfold SF64sqrt, SFsqrt.
  destruct (Prim2SF x) as [[|]|[|]| |[|] m e]; simpl; trivial.
  destruct (SFsqrt_core_binary prec emax (Z.pos m) e) as [[mz ez] lz].
  apply sign_clear_not_below, round_keeps_sign.
Qed.

Lemma of_uint63_sign (i : PrimInt63.int) :
  binary64.sign_clear (Prim2SF (PrimFloat.of_uint63 i)).
Proof.
  rewrite of_uint63_spec. unfold binary_normalize.
  pose proof (Uint63.to_Z_bounded i) as Hb.
  destruct (Uint63.to_Z i) as [|p|p]; simpl; trivial; [|lia].
  unfold binary_round.
  destruct (shl_align p 0 _) as [mz ez]. apply round_keeps_sign.
Qed.

Lemma div_not_below (x y : float) :
  PrimFloat.ltb x 0%float = false -> binary64.sign_clear (Prim2SF y) ->
  PrimFloat.ltb (PrimFloat.div x y) 0%float = false.
Proof.
  rewrite !ltb_zero, div_spec. unfold SF64div, SFdiv.
  destruct (Prim2SF x) as [[|]|[|]| |[|] m e];
    destruct (Prim2SF y) as [[|]|[|]| |[|] m' e']; simpl; try tauto.
  intros _ _.
  destruct (SFdiv_core_binary prec emax (Z.pos m) e (Z.pos m') e')
    as [[mz ez] lz].
  apply sign_clear_not_below, round_keeps_sign.
Qed.

Lemma order : @numpy_order binary64.NP.
Proof.
  constructor.
  - intros z. apply sqrt_not_below.
  - intros x n Hx Hn. apply div_not_below; [exact Hx|].
    cbn [float_ binary64.NP]. unfold binary64.of_Z.
    destruct (Z.ltb_spec n 0); [lia|]. apply of_uint63_sign.
  - intros x _. apply sqrt_not_below.
Qed.

End binary64_order.

(** ** The constructor in closed form *)

Module closed_form.
Import np_facts np_ops np_entries distance padder spectralsim generator
  construction synthesis calls lifecycle behaviour.
Local Open Scope py_scope.

Lemma tabulate_ext {A} (s : list nat) (f g : list nat -> A) :
  (forall idx, np.in_bounds s idx -> f idx = g idx) ->
  np.tabulate s f = np.tabulate s g.
Proof.
  intros H. unfold np.tabulate. f_equal. apply map_ext_in. intros idx Hin.
  apply H. pose proof (ndindex_in_bounds s) as HF.
  rewrite Forall_forall in HF. apply HF. exact Hin.
Qed.

Lemma in_bounds_nth (s idx : list nat) (k : nat) :
  np.in_bounds s idx -> (k < length s)%nat ->
  (nth k idx 0 < nth k s 0)%nat.
Proof.
  intros Hb. revert k.
  induction Hb as [|i n idx s Hi Hb IH]; intros [|k] Hk; simpl in *; try lia.
  apply IH. lia.
Qed.

Lemma nth_to_nat (P : list Z) (k : nat) :
  nth k (List.map Z.to_nat P) 0%nat = Z.to_nat (nth k P 0%Z).
Proof. apply (map_nth Z.to_nat P 0%Z k). Qed.

(** Lines 54-59 on the padded extents [P]: the wrapped coordinates and the
    sums of their squares. *)
Lemma distance_closed (P : list Z) :
  exists diff both,
    for_range (length P) np.newaxis1 (mk_ndarray [length P] P)
      = Some (mk_ndarray (length P :: repeat 1%nat (length P)) P) /\
    np.binop 0%Z 0%Z Z.sub (mk_ndarray (length P :: repeat 1%nat (length P)) P)
      (np.mgrid P) = Some diff /\
    np.stack2 (np.mgrid P) diff = Some both /\
    np.min0 both = Some (wrapped_grid P) /\
    np.sum0 (np.map (fun x => x ^ 2)%Z (wrapped_grid P))
      = Some (lag_sq_grid P).
Proof.
  destruct (distance_stage P)
    as (diff & both & grid & sq & E1 & E2 & E3 & E4 & E5 & Hg & Hs & Hw & Hget).
  set (N := length P) in *. set (sizes := List.map Z.to_nat P) in *.
  assert (Hsz : length sizes = N) by (unfold sizes; apply length_map).
  assert (Hm : shape (np.mgrid P) = N :: sizes) by apply shape_mgrid.
  assert (Hd : shape diff = N :: sizes).
  { pose proof E2 as E. unfold np.binop in E. rewrite Hm in E.
    simpl shape in E. rewrite <- Hsz, broadcast_shapes_column in E.
    simpl in E. injection E as <-. simpl. rewrite Hsz. reflexivity. }
  assert (Hb : shape both = 2%nat :: N :: sizes).
  { pose proof E3 as E. unfold np.stack2 in E.
    destruct (list_eq_dec Nat.eq_dec _ _); [|discriminate].
    injection E as <-. simpl. rewrite length_map. reflexivity. }
  assert (Egrid : grid = wrapped_grid P).
  { pose proof E4 as E. unfold np.min0 in E. rewrite Hb in E.
    injection E as E. rewrite <- E.
    unfold wrapped_grid. fold N. fold sizes. apply tabulate_ext.
    intros [|k c] Hidx; [inversion Hidx|].
    pose proof Hidx as Hkc.
    inversion Hidx as [|? ? ? ? Hk Hc]; subst.
    cbn [seq List.map fold_left].
    assert (Hwm : np.wf (np.mgrid P)) by apply wf_tabulate.
    rewrite <- Hm in Hkc.
    destruct (get_stack2 0%Z _ E3 Hwm Hkc) as [-> ->].
    rewrite Hm in Hkc.
    rewrite get_mgrid by (fold N; fold sizes; lia || assumption).
    f_equal.
    rewrite (get_binop _ _ 0%Z _ _ _ E2) by (rewrite Hd; assumption).
    rewrite Hm. rewrite (broadcast_index_in_bounds Hkc).
    rewrite get_mgrid by (fold N; fold sizes; lia || assumption).
    simpl shape.
    rewrite broadcast_index_column
      by (lia || (rewrite (in_bounds_length Hc); exact Hsz)).
    unfold N. rewrite get_column. reflexivity. }
  assert (Esq : sq = lag_sq_grid P).
  { pose proof E5 as E. unfold np.sum0 in E. simpl shape in E.
    rewrite Hg in E. injection E as E.
    unfold lag_sq_grid. fold sizes. rewrite <- E. apply tabulate_ext.
    intros c Hc. rewrite <- (Hget c Hc), <- E.
    rewrite get_tabulate by exact Hc. reflexivity. }
  subst grid sq. exists diff, both.
  repeat (split; [assumption|]). assumption.
Qed.

Section Closed.

Context `{NP : numpy} {CF : covfun} {FW : pyfftw}.

(** The constructor up to its three fallible collaborators: the model
    lookup of line 61, the seeding of line 69 and its own first draw of
    line 76. *)
Lemma init_closed e ds cm per pf sd r :
  (per = false -> find_maximum_range cm = Some r) ->
  __init__ e ds cm per pf sd =
    (c <- covariance cm ;;
     _ <- default_rng e sd ;;
     '(_, self) <- simnew (before_draw e ds cm per pf sd r c
                             (wrapped_grid (spec.paddedSize per ds r))
                             (lag_sq_grid (spec.paddedSize per ds r))) ;;
     Some self).
Proof.
  intros Hr.
  destruct (distance_closed (spec.paddedSize per ds r))
    as (diff & both & E1 & E2 & E3 & E4 & E5).
  rewrite length_paddedSize in *.
  unfold __init__.
  rewrite (stored_cutoff_eq cm ds Hr). cbn [bind].
  rewrite padded_eq. cbn [bind len shape data].
  rewrite E1. cbn [bind]. rewrite E2. cbn [bind]. rewrite E3. cbn [bind].
  rewrite E4. cbn [bind]. rewrite E5. cbn [bind].
  unfold Covariogram.
  destruct (covariance cm) as [c|]; cbn [bind]; [|reflexivity].
  destruct sd as [s|]; cbn [default_rng]; [|reflexivity].
  destruct (s <? 0)%Z; reflexivity.
Qed.

Lemma init_no_range e ds cm pf sd :
  find_maximum_range cm = None -> __init__ e ds cm false pf sd = None.
Proof. intros H. unfold __init__. cbn [negb]. rewrite H. reflexivity. Qed.

Lemma default_rng_some e sd g :
  default_rng e sd = Some g -> spec.valid_seed sd.
Proof.
  destruct sd as [s|]; simpl; [|trivial].
  destruct (Z.ltb_spec s 0); [discriminate|]. intros _. assumption.
Qed.

(** The constructor returns, and this is the object it returns. *)
Lemma init_built e ds cm per pf sd r c :
  spec.valid_grid_shape ds -> spec.valid_seed sd -> covariance cm = Some c ->
  (per = false -> find_maximum_range cm = Some r /\ (0 <= r)%Q) ->
  exists A B,
    shape A = List.map Z.to_nat ds /\ shape B = List.map Z.to_nat ds /\
    let P := spec.paddedSize per ds r in
    let self0 :=
      before_draw e ds cm per pf sd r c (wrapped_grid P) (lag_sq_grid P) in
    let Y0 := mk_ndarray (2%nat :: List.map Z.to_nat ds) (data A ++ data B) in
    laid_out ds self0 /\
    __init__ e ds cm per pf sd =
      Some (set_draw self0 1%Z
              (advance (seeded e sd) (shape (sqrtFFTQ self0))) Y0).
Proof.
  intros Hv Hsd Hc Hr. cbv zeta.
  set (P := spec.paddedSize per ds r).
  assert (Hlo : laid_out ds (before_draw e ds cm per pf sd r c
                               (wrapped_grid P) (lag_sq_grid P))).
  { apply before_draw_laid_out;
      [exact Hv| intros Hp; apply Hr, Hp | reflexivity]. }
  destruct (simnew_ok Hlo) as (A & B & HA & HB & Hsim & _).
  cbv zeta in Hsim. cbn [counter rng before_draw] in Hsim.
  exists A, B. split; [exact HA|]. split; [exact HB|].
  split; [exact Hlo|].
  rewrite (@init_closed e ds cm per pf sd r) by (intros Hp; apply Hr, Hp).
  rewrite Hc. cbn [bind]. rewrite default_rng_valid by exact Hsd. cbn [bind].
  fold P. rewrite Hsim. reflexivity.
Qed.

Lemma padded_positive per ds r :
  Forall (fun d => 0 < d)%Z ds -> (per = false -> (0 <= r)%Q) ->
  Forall (fun p => 0 < p)%Z (spec.paddedSize per ds r).
Proof.
  intros Hpos Hr. destruct per; simpl; [exact Hpos|].
  apply Forall_map. eapply Forall_impl; [|exact Hpos].
  intros d Hd. pose proof (m8_ge_dim d (Hr eq_refl)) as Hm.
  cbv beta in Hd |- *. lia.
Qed.

End Closed.
End closed_form.

(** ** Further behaviour of the constructor *)

Module constructor_behaviour.
Import np_facts np_ops np_entries distance padder spectralsim generator
  construction synthesis calls lifecycle behaviour closed_form.
Local Open Scope py_scope.

Lemma nth_ndindex_block (n : nat) (s : list nat) (k i : nat) (d : list nat) :
  (k < n)%nat -> (i < np.prod s)%nat ->
  nth (k * np.prod s + i) (np.ndindex (n :: s)) d
  = k :: nth i (np.ndindex s) [].
Proof.
  intros Hk Hi. cbn [np.ndindex].
  rewrite nth_flat_map_block with (m := np.prod s); try assumption.
  - simpl. apply nth_map_in. rewrite length_ndindex. exact Hi.
  - intros j. rewrite length_map. apply length_ndindex.
Qed.

(** Lines 30-31: row [i] of the transposed coordinate grid is the [i]-th
    index of the grid, in C order. *)
Lemma get_reshape3T_mgrid (ds : list Z) (i k : nat) :
  length ds = 3%nat -> (i < np.prod (List.map Z.to_nat ds))%nat ->
  (k < 3)%nat ->
  np.get 0%Z (np.reshape3T 0%Z (np.mgrid ds)) [i; k] =
  Z.of_nat (nth k (nth i (np.ndindex (List.map Z.to_nat ds)) []) 0%nat).
Proof.
  intros Hl Hi Hk. set (s := List.map Z.to_nat ds) in *.
  assert (Hls : length s = 3%nat) by (unfold s; rewrite length_map; exact Hl).
  assert (Hm : Nat.div (length (data (np.mgrid ds))) 3 = np.prod s).
  { unfold np.mgrid. cbn [data np.tabulate]. fold s.
    rewrite length_map, length_ndindex, Hls.
    change (np.prod (3%nat :: s)) with (3 * np.prod s)%nat.
    rewrite Nat.mul_comm. apply Nat.div_mul. discriminate. }
  unfold np.reshape3T. rewrite Hm.
  rewrite get_tabulate
    by (constructor; [exact Hi|constructor; [exact Hk|constructor]]).
  unfold np.mgrid. cbn [data np.tabulate]. fold s. rewrite Hls.
  rewrite (nth_map_in _ _ []).
  - rewrite nth_ndindex_block by assumption. reflexivity.
  - rewrite length_ndindex.
    change (np.prod (3%nat :: s)) with (3 * np.prod s)%nat. nia.
Qed.

Lemma lag_sq_cons (p : Z) (P : list Z) (ci : nat) (c : list nat) :
  spec.lag_sq (p :: P) (ci :: c) =
  (Z.min (Z.of_nat ci) (p - Z.of_nat ci) ^ 2 + spec.lag_sq P c)%Z.
Proof. reflexivity. Qed.

(** The mirror image stays on the grid and has the same lag. *)
Lemma reflect_lag (P : list Z) :
  forall mask c, np.in_bounds (List.map Z.to_nat P) c ->
    np.in_bounds (List.map Z.to_nat P) (reflect mask P c) /\
    spec.lag_sq P (reflect mask P c) = spec.lag_sq P c.
Proof.
  induction P as [|p P IH]; intros mask c Hb;
    inversion Hb as [|ci n c' s Hi Hb']; subst.
  - split; [constructor|reflexivity].
  - cbn [reflect]. destruct (IH (tl mask) c' Hb') as [Hb2 Hl2].
    rewrite !lag_sq_cons, Hl2.
    destruct (hd false mask).
    + assert (Hp : (0 < p)%Z) by lia.
      pose proof (Z.mod_pos_bound (p - Z.of_nat ci) p Hp) as Hmod.
      split; [constructor; [lia|exact Hb2]|].
      f_equal. f_equal. rewrite Z2Nat.id by lia.
      destruct ci as [|ci].
      * change (Z.of_nat 0) with 0%Z. rewrite Z.sub_0_r, Z.mod_same by lia.
        lia.
      * rewrite Z.mod_small by lia. lia.
    + split; [constructor; assumption|reflexivity].
Qed.

Lemma lag_sq_origin (P : list Z) :
  Forall (fun p => 0 < p)%Z P ->
  np.in_bounds (List.map Z.to_nat P) (repeat 0%nat (length P)) /\
  spec.lag_sq P (repeat 0%nat (length P)) = 0%Z.
Proof.
  intros H. induction H as [|p P Hp H [IH1 IH2]]; simpl.
  - split; [constructor|reflexivity].
  - split; [constructor; [lia|exact IH1]|].
    rewrite lag_sq_cons, IH2. change (Z.of_nat 0) with 0%Z.
    rewrite Z.min_l by lia. reflexivity.
Qed.



Section Constructor.

Context `{NP : numpy} {CF : covfun} {FW : pyfftw}.

(** X1. Lines 30-31.  The constructor sets the plotting coordinates [xyz]
    exactly when the requested grid has three axes.  They then form an array
    of shape [(d1*d2*d3, 3)] whose row [i] is the [i]-th index of the
    requested grid in C order: they list the points of the grid the caller
    asked for, not of the padded grid the generator works on. *)
Theorem plotting_coordinates e ds cm per pf sd r c :
  spec.valid_grid_shape ds -> spec.valid_seed sd ->
  covariance cm = Some c ->
  (per = false -> find_maximum_range cm = Some r /\ (0 <= r)%Q) ->
  exists self,
    __init__ e ds cm per pf sd = Some self /\
    (length ds <> 3%nat -> xyz self = None) /\
    (length ds = 3%nat ->
     exists a,
       xyz self = Some a /\
       shape a = [np.prod (List.map Z.to_nat ds); 3%nat] /\
       forall i k, (i < np.prod (List.map Z.to_nat ds))%nat -> (k < 3)%nat ->
         np.get 0%Z a [i; k] =
         Z.of_nat (nth k (nth i (np.ndindex (List.map Z.to_nat ds)) [])
                     0%nat)).
Proof.
  intros Hv Hsd Hc Hr.
  destruct (@init_built _ _ _ e ds cm per pf sd r c Hv Hsd Hc Hr)
    as (A & B & _ & _ & _ & Hinit).
  eexists. split; [exact Hinit|].
  cbn [xyz set_draw before_draw]. split.
  - intros Hl. apply Nat.eqb_neq in Hl. rewrite Hl. reflexivity.
  - intros Hl. rewrite Hl. cbn [Nat.eqb]. eexists. split; [reflexivity|].
    split.
    + unfold np.reshape3T, np.mgrid. cbn [shape data np.tabulate].
      rewrite length_map, length_ndindex, !length_map, Hl.
      f_equal.
      change (np.prod (3%nat :: List.map Z.to_nat ds))
        with (3 * np.prod (List.map Z.to_nat ds))%nat.
      rewrite Nat.mul_comm. apply Nat.div_mul. discriminate.
    + intros i k Hi Hk. apply get_reshape3T_mgrid; assumption.
Qed.

(** X2. Lines 51-56.  The stored coordinate grid has one layer per axis over
    the padded grid, and its entry [(k, c)] is the wrap-around distance
    [min(c_k, paddedSize_k - c_k)] of the coordinate on axis [k]: it is never
    negative and never more than half the padded extent. *)
Theorem wrapped_coordinates e ds cm per pf sd r c :
  spec.valid_grid_shape ds -> spec.valid_seed sd ->
  covariance cm = Some c ->
  (per = false -> find_maximum_range cm = Some r /\ (0 <= r)%Q) ->
  exists self,
    __init__ e ds cm per pf sd = Some self /\
    let P := spec.paddedSize per ds r in
    spec.extents (grid self) = Z.of_nat (length ds) :: P /\
    forall k idx, (k < length ds)%nat ->
      np.in_bounds (List.map Z.to_nat P) idx ->
      let g := np.get 0%Z (grid self) (k :: idx) in
      g = Z.min (Z.of_nat (nth k idx 0%nat))
            (nth k P 0%Z - Z.of_nat (nth k idx 0%nat)) /\
      (0 <= g)%Z /\ (2 * g <= nth k P 0%Z)%Z.
Proof.
  intros Hv Hsd Hc Hr.
  destruct (@init_built _ _ _ e ds cm per pf sd r c Hv Hsd Hc Hr)
    as (A & B & _ & _ & _ & Hinit).
  eexists. split; [exact Hinit|]. cbv zeta.
  cbn [grid set_draw before_draw].
  set (P := spec.paddedSize per ds r).
  assert (HlP : length P = length ds) by apply length_paddedSize.
  assert (Hpos : Forall (fun p => 0 < p)%Z P).
  { apply padded_positive; [apply Hv|intros Hp; apply Hr, Hp]. }
  split.
  - unfold spec.extents, wrapped_grid. cbn [shape np.tabulate List.map].
    rewrite of_nat_to_nat by exact Hpos. rewrite HlP. reflexivity.
  - intros k idx Hk Hidx.
    assert (Hget : np.get 0%Z (wrapped_grid P) (k :: idx) =
                   Z.min (Z.of_nat (nth k idx 0%nat))
                     (nth k P 0%Z - Z.of_nat (nth k idx 0%nat))).
    { unfold wrapped_grid. rewrite get_tabulate; [reflexivity|].
      constructor; [lia|exact Hidx]. }
    rewrite Hget. split; [reflexivity|].
    pose proof (@in_bounds_nth _ _ k Hidx) as Hlt.
    rewrite length_map, nth_to_nat in Hlt. specialize (Hlt ltac:(lia)).
    lia.
Qed.

(** X3. Lines 51-59.  The lag distance is symmetric on the torus: mirroring
    a coordinate on any set of axes, [c_i] to [(paddedSize_i - c_i) mod
    paddedSize_i], stays on the padded grid and leaves [h] unchanged; and the
    lag of the origin is the root of zero. *)
Theorem lag_symmetry e ds cm per pf sd r c :
  spec.valid_grid_shape ds -> spec.valid_seed sd ->
  covariance cm = Some c ->
  (per = false -> find_maximum_range cm = Some r /\ (0 <= r)%Q) ->
  exists self,
    __init__ e ds cm per pf sd = Some self /\
    let P := spec.paddedSize per ds r in
    (forall mask idx, np.in_bounds (shape (h self)) idx ->
       np.in_bounds (shape (h self)) (reflect mask P idx) /\
       np.get zero64 (h self) (reflect mask P idx)
       = np.get zero64 (h self) idx) /\
    np.in_bounds (shape (h self)) (repeat 0%nat (length ds)) /\
    np.get zero64 (h self) (repeat 0%nat (length ds)) = sqrt (float_ 0%Z).
Proof.
  intros Hv Hsd Hc Hr.
  destruct (@init_built _ _ _ e ds cm per pf sd r c Hv Hsd Hc Hr)
    as (A & B & _ & _ & _ & Hinit).
  eexists. split; [exact Hinit|]. cbv zeta.
  cbn [h set_draw before_draw].
  set (P := spec.paddedSize per ds r).
  assert (HlP : length P = length ds) by apply length_paddedSize.
  assert (Hpos : Forall (fun p => 0 < p)%Z P).
  { apply padded_positive; [apply Hv|intros Hp; apply Hr, Hp]. }
  assert (Hh : forall idx, np.in_bounds (List.map Z.to_nat P) idx ->
             np.get zero64 (np.map (fun x => sqrt (float_ x)) (lag_sq_grid P))
               idx = sqrt (float_ (spec.lag_sq P idx))).
  { intros idx Hidx.
    rewrite (get_map 0%Z) by (apply wf_tabulate || exact Hidx).
    unfold lag_sq_grid. rewrite get_tabulate by exact Hidx. reflexivity. }
  cbn [shape np.map lag_sq_grid np.tabulate].
  split; [|split].
  - intros mask idx Hidx.
    destruct (reflect_lag P mask Hidx) as [Hb Hl].
    split; [exact Hb|]. rewrite !Hh by assumption. rewrite Hl. reflexivity.
  - rewrite <- HlP. apply lag_sq_origin. exact Hpos.
  - rewrite <- HlP. destruct (lag_sq_origin Hpos) as [Hb Hl].
    rewrite Hh by exact Hb. rewrite Hl. reflexivity.
Qed.


(** X5. Lines 33-35, 61, 69 and 76.  On a grid of positive extents, with a
    range lookup that answers no negative range, the constructor returns
    exactly when the covariance model is accepted, the seed is one numpy
    accepts, and, in non-periodic mode, the range lookup answers; in every
    other case it raises.  In periodic mode the range lookup plays no
    part. *)
Theorem constructor_returns_iff e ds cm per pf sd :
  spec.valid_grid_shape ds ->
  (forall r, find_maximum_range cm = Some r -> (0 <= r)%Q) ->
  ((exists self, __init__ e ds cm per pf sd = Some self) <->
   (exists c, covariance cm = Some c) /\ spec.valid_seed sd /\
   (per = false -> exists r, find_maximum_range cm = Some r)).
Proof.
  intros Hv Hr0. split.
  - intros [self Hinit].
    assert (Hr : exists r, per = false -> find_maximum_range cm = Some r).
    { destruct per; [exists 0%Q; discriminate|].
      destruct (find_maximum_range cm) as [r|] eqn:Er;
        [exists r; reflexivity|].
      rewrite (@init_no_range _ _ _ e ds cm pf sd Er) in Hinit. discriminate. }
    destruct Hr as [r Hr].
    rewrite (@init_closed _ _ _ e ds cm per pf sd r Hr) in Hinit.
    destruct (covariance cm) as [c|]; [|discriminate]. cbn [bind] in Hinit.
    destruct (default_rng e sd) as [g|] eqn:Eg; [|discriminate].
    split; [exists c; reflexivity|].
    split; [exact (@default_rng_some _ e sd g Eg)|].
    intros Hp. exists r. exact (Hr Hp).
  - intros ([c Hc] & Hsd & Hr).
    assert (Hr' : exists r,
              per = false -> find_maximum_range cm = Some r /\ (0 <= r)%Q).
    { destruct per; [exists 0%Q; discriminate|].
      destruct (Hr eq_refl) as [r Er]. exists r. intros _.
      split; [exact Er|exact (Hr0 r Er)]. }
    destruct Hr' as [r Hr'].
    destruct (@init_built _ _ _ e ds cm per pf sd r c Hv Hsd Hc Hr')
      as (A & B & _ & _ & _ & Hinit).
    eexists. exact Hinit.
Qed.

End Constructor.
End constructor_behaviour.

(** ** Further behaviour of the synthesis calls *)

Module call_behaviour.
Import np_facts np_ops np_entries distance padder spectralsim generator
  construction synthesis calls lifecycle behaviour closed_form.
Local Open Scope py_scope.

Lemma last_cons {A} (l : list A) (x d : A) : last (x :: l) d = last l x.
Proof.
  revert x d. induction l as [|y l IH]; intros x d; [reflexivity|].
  change (last (x :: y :: l) d) with (last (y :: l) d).
  rewrite (IH y d), (IH y x). reflexivity.
Qed.

Lemma get_pair {A} (d : A) (a b : ndarray A) (s idx : list nat) :
  shape a = s -> shape b = s -> np.wf a -> np.in_bounds s idx ->
  np.get d (mk_ndarray (2%nat :: s) (data a ++ data b)) (0%nat :: idx)
  = np.get d a idx /\
  np.get d (mk_ndarray (2%nat :: s) (data a ++ data b)) (1%nat :: idx)
  = np.get d b idx.
Proof.
  intros Ha Hb Hw Hidx. subst s.
  apply (@get_stack2 _ d a b); [|exact Hw|exact Hidx].
  unfold np.stack2.
  destruct (list_eq_dec Nat.eq_dec (shape a) (shape b)); congruence.
Qed.

Section Calls.

Context `{NP : numpy} {CF : covfun} {FW : pyfftw}.

Lemma do_call_frame c self y self' :
  do_call c self = Some (y, self') ->
  self' = set_draw self (counter self + 1)%Z
            (advance (rng self) (shape (sqrtFFTQ self))) y.
Proof. destruct c; [apply simnew_frame|apply simnew_real_frame]. Qed.

(** What a sequence of calls leaves in the draw counter, the random stream
    and the last-result slot. *)
Lemma run_counts (calls : list call) :
  forall self ys self', run calls self = Some (ys, self') ->
    length ys = length calls /\
    counter self' = (counter self + Z.of_nat (length calls))%Z /\
    rng self' = advance_n (length calls) (rng self) (shape (sqrtFFTQ self)) /\
    sqrtFFTQ self' = sqrtFFTQ self /\
    Y self' = last (List.map Some ys) (Y self).
Proof.
  induction calls as [|c calls IH]; intros self ys self' H.
  - injection H as <- <-. repeat split; simpl; lia.
  - cbn [run] in H.
    destruct (do_call c self) as [[y s1]|] eqn:E; [|discriminate].
    cbn [bind] in H.
    destruct (run calls s1) as [[ys' s2]|] eqn:E2; [|discriminate].
    injection H as <- <-. apply do_call_frame in E. subst s1.
    destruct (IH _ _ _ E2) as (Hl & Hc & Hg & Hs & HY).
    cbn [set_draw counter rng sqrtFFTQ Y] in Hc, Hg, Hs, HY.
    cbn [length List.map advance_n].
    split; [lia|]. split; [lia|]. split; [exact Hg|]. split; [exact Hs|].
    rewrite last_cons. exact HY.
Qed.

Lemma calls_from_noise self rand g :
  shaped_noise self = Some (rand, g) ->
  let c := (counter self + 1)%Z in
  let Y1 := times_npoints self (np.map real (transformed self rand)) in
  let Y2 := times_npoints self (np.map imag (transformed self rand)) in
  simnew self =
    ('(Y1, Y2) <- (if negb (periodic self)
                   then Y1' <- crop self Y1 ;;
                        Y2' <- crop self Y2 ;;
                        Some (Y1', Y2')
                   else Some (Y1, Y2)) ;;
     A <- np.newaxis0 Y1 ;;
     B <- np.newaxis0 Y2 ;;
     Y' <- np.concatenate0 A B ;;
     Some (Y', set_draw self c g Y')) /\
  simnew_real self =
    (Y' <- (if negb (periodic self) then crop self Y1 else Some Y1) ;;
     Some (Y', set_draw self c g Y')).
Proof.
  intros Hn. unfold simnew, simnew_real, transformed. rewrite Hn. cbn [bind].
  destruct (pyfftwmode self); split; reflexivity.
Qed.

Lemma same_spectrum_noise a b :
  same_spectrum a b ->
  shaped_noise a = shaped_noise b /\
  forall (part : complex128 -> float64) rand,
    times_npoints a (np.map part (transformed a rand)) =
    times_npoints b (np.map part (transformed b rand)).
Proof.
  intros (H1 & H2 & H3 & H4).
  unfold shaped_noise, times_npoints, transformed.
  rewrite H1, H2, H3, H4. split; reflexivity.
Qed.

(** Lines 85-88: the shaped noise, entry by entry. *)
Lemma shaped_noise_entries self :
  let s := shape (sqrtFFTQ self) in
  let re := standard_normal (rng self) s in
  let im := standard_normal (snd re) s in
  exists rand,
    shaped_noise self = Some (rand, snd im) /\
    shape rand = s /\
    forall idx, np.in_bounds s idx ->
      np.get zeroc rand idx =
      cmultiply (complex_ (np.get zero32 (fst re) idx)
                   (np.get zero32 (fst im) idx))
        (np.get zero64 (sqrtFFTQ self) idx).
Proof.
  cbv zeta. unfold shaped_noise, standard_normal.
  set (s := shape (sqrtFFTQ self)).
  destruct (normal_data (rng self) (np.prod s)) as [xs g1]. cbn [fst snd].
  destruct (normal_data g1 (np.prod s)) as [ys g2]. cbn [fst snd].
  destruct (binop_same_shape zero32 zero32 complex_
              (mk_ndarray s xs) (mk_ndarray s ys) eq_refl)
    as (eps & Heps & Hse & _).
  cbn [shape] in Hse.
  destruct (binop_same_shape zeroc zero64 cmultiply eps (sqrtFFTQ self))
    as (rand & Hrand & Hsr & _); [exact Hse|].
  rewrite Heps. cbn [bind]. rewrite Hrand. cbn [bind].
  exists rand. split; [reflexivity|].
  split; [rewrite Hsr; exact Hse|].
  intros idx Hidx.
  rewrite (get_binop _ _ zeroc _ _ _ Hrand) by (rewrite Hsr, Hse; exact Hidx).
  rewrite Hse. fold s. rewrite (broadcast_index_in_bounds Hidx).
  rewrite (get_binop _ _ zeroc _ _ _ Heps) by (rewrite Hse; exact Hidx).
  cbn [shape]. rewrite (broadcast_index_in_bounds Hidx). reflexivity.
Qed.

(** Both operations on a laid-out generator, with the entries of what they
    return: those of the field of the draw on the padded grid. *)
Lemma call_entries ds self :
  laid_out ds self ->
  (periodic self = true -> transform_keeps_size self) ->
  exists rand A B,
    shaped_noise self =
      Some (rand, advance (rng self) (shape (sqrtFFTQ self))) /\
    let s := List.map Z.to_nat ds in
    let g := advance (rng self) (shape (sqrtFFTQ self)) in
    let c := (counter self + 1)%Z in
    let Y1 := times_npoints self (np.map real (transformed self rand)) in
    let Y2 := times_npoints self (np.map imag (transformed self rand)) in
    let Y' := mk_ndarray (2%nat :: s) (data A ++ data B) in
    shape A = s /\ shape B = s /\ np.wf A /\ np.wf B /\
    (forall idx, np.in_bounds s idx ->
       np.get zero64 A idx = np.get zero64 Y1 idx /\
       np.get zero64 B idx = np.get zero64 Y2 idx) /\
    simnew self = Some (Y', set_draw self c g Y') /\
    simnew_real self = Some (A, set_draw self c g A).
Proof.
  intros Hlo Hts.
  destruct (shaped_noise_ok self) as (rand & Hn & Hs & Hw).
  destruct (calls_from_noise self Hn) as (Hsim & Hreal).
  cbv zeta in Hsim, Hreal. rewrite Hsim, Hreal. clear Hsim Hreal.
  pose proof Hlo as ((Hne & Hpos) & Hnd & Hsh & Hlen & Hstd & Hcut).
  assert (Hnz : List.map Z.to_nat ds <> []).
  { destruct ds; [congruence|discriminate]. }
  set (Y1 := times_npoints self (np.map real (transformed self rand))).
  set (Y2 := times_npoints self (np.map imag (transformed self rand))).
  assert (HY1 : shape Y1 = shape (sqrtFFTQ self)).
  { unfold Y1, transformed. destruct (pyfftwmode self); simpl; exact Hs. }
  assert (HY2 : shape Y2 = shape (sqrtFFTQ self)).
  { unfold Y2, transformed. destruct (pyfftwmode self); simpl; exact Hs. }
  exists rand.
  destruct (periodic self) eqn:Hper; cbn [negb bind].
  - exists Y1, Y2. rewrite Hcut in Hstd.
    split; [exact Hn|]. cbv zeta.
    split; [congruence|]. split; [congruence|].
    pose proof (Hts eq_refl rand Hw) as Ht.
    split; [unfold Y1; apply wf_map, wf_map; exact Ht|].
    split; [unfold Y2; apply wf_map, wf_map; exact Ht|].
    split; [intros idx _; split; reflexivity|].
    rewrite (pair_eq (fun Y' => Some (Y', set_draw self _ _ Y')) Y1 Y2
               (s := List.map Z.to_nat ds)) by congruence.
    split; reflexivity.
  - rewrite (crop_ok Y1 Hlo Hper HY1), (crop_ok Y2 Hlo Hper HY2). cbn [bind].
    exists (np.tabulate (List.map Z.to_nat ds) (np.get zero64 Y1)),
           (np.tabulate (List.map Z.to_nat ds) (np.get zero64 Y2)).
    split; [exact Hn|]. cbv zeta.
    split; [reflexivity|]. split; [reflexivity|].
    split; [apply wf_tabulate|]. split; [apply wf_tabulate|].
    split.
    + intros idx Hidx. rewrite !get_tabulate by exact Hidx.
      split; reflexivity.
    + unfold np.tabulate at 1 2.
      rewrite (pair_eq (fun Y' => Some (Y', set_draw self _ _ Y')) _ _
                 (s := List.map Z.to_nat ds)) by (reflexivity || exact Hnz).
      split; reflexivity.
Qed.

(** One call on two generators of one spectrum: the results hold the same
    values wherever both grids have a point. *)
Lemma one_call_agrees dsa dsb a b (c : call) :
  laid_out dsa a -> laid_out dsb b -> same_spectrum a b ->
  (periodic a = true -> transform_keeps_size a) ->
  (periodic b = true -> transform_keeps_size b) ->
  exists ya yb,
    let g := advance (rng a) (shape (sqrtFFTQ a)) in
    do_call c a = Some (ya, set_draw a (counter a + 1)%Z g ya) /\
    do_call c b = Some (yb, set_draw b (counter b + 1)%Z g yb) /\
    agree (List.map Z.to_nat dsa) (List.map Z.to_nat dsb) c ya yb.
Proof.
  intros Hla Hlb Hsp Hta Htb.
  destruct (call_entries Hla Hta)
    as (ra & Aa & Ba & Hna & Hsa1 & Hsa2 & Hwa & _ & Hga & Hsima & Hreala).
  destruct (call_entries Hlb Htb)
    as (rb & Ab & Bb & Hnb & Hsb1 & Hsb2 & Hwb & _ & Hgb & Hsimb & Hrealb).
  cbv zeta in *.
  destruct (same_spectrum_noise Hsp) as (Hnoise & Hfield).
  pose proof Hsp as (H1 & H2 & _ & _).
  rewrite Hnoise, Hnb in Hna. injection Hna as Hrand _. subst rb.
  rewrite <- H1, <- H2 in Hsimb, Hrealb.
  destruct c; cbn [do_call agree].
  - eexists. eexists. split; [exact Hsima|]. split; [exact Hsimb|].
    intros j idx Hj Hia Hib.
    destruct (@get_pair _ zero64 Aa Ba _ idx Hsa1 Hsa2 Hwa Hia) as [Ea0 Ea1].
    destruct (@get_pair _ zero64 Ab Bb _ idx Hsb1 Hsb2 Hwb Hib) as [Eb0 Eb1].
    destruct (Hga idx Hia) as [Ga1 Ga2].
    destruct (Hgb idx Hib) as [Gb1 Gb2].
    destruct j as [|[|j]]; [| |lia].
    + rewrite Ea0, Eb0, Ga1, Gb1, Hfield. reflexivity.
    + rewrite Ea1, Eb1, Ga2, Gb2, Hfield. reflexivity.
  - eexists. eexists. split; [exact Hreala|]. split; [exact Hrealb|].
    intros idx Hia Hib.
    destruct (Hga idx Hia) as [Ga1 _]. destruct (Hgb idx Hib) as [Gb1 _].
    rewrite Ga1, Gb1, Hfield. reflexivity.
Qed.

Lemma run_agrees dsa dsb (calls : list call) :
  forall a b,
    laid_out dsa a -> laid_out dsb b -> same_spectrum a b ->
    (periodic a = true -> transform_keeps_size a) ->
    (periodic b = true -> transform_keeps_size b) ->
    exists ysa a' ysb b',
      run calls a = Some (ysa, a') /\ run calls b = Some (ysb, b') /\
      Forall2
        (fun c yy =>
           agree (List.map Z.to_nat dsa) (List.map Z.to_nat dsb) c
             (fst yy) (snd yy))
        calls (combine ysa ysb).
Proof.
  induction calls as [|c calls IH]; intros a b Hla Hlb Hsp Hta Htb.
  - exists [], a, [], b. split; [reflexivity|]. split; [reflexivity|].
    constructor.
  - destruct (one_call_agrees c Hla Hlb Hsp Hta Htb)
      as (ya & yb & Ha & Hb & Hag).
    cbv zeta in Ha, Hb.
    set (g := advance (rng a) (shape (sqrtFFTQ a))) in *.
    destruct (IH (set_draw a (counter a + 1)%Z g ya)
                 (set_draw b (counter b + 1)%Z g yb))
      as (ysa & a' & ysb & b' & Hra & Hrb & Hall).
    + exact Hla.
    + exact Hlb.
    + destruct Hsp as (H1 & H2 & H3 & H4).
      repeat split; assumption.
    + exact Hta.
    + exact Htb.
    + cbn [run]. rewrite Ha, Hb. cbn [bind]. rewrite Hra, Hrb. cbn [bind].
      exists (ya :: ysa), a', (yb :: ysb), b'.
      split; [reflexivity|]. split; [reflexivity|].
      constructor; [exact Hag|exact Hall].
Qed.

Lemma transformed_wf {TS : transform_sizes} self : transform_keeps_size self.
Proof.
  intros rand Hw. unfold transformed, np.wf in *.
  destruct (pyfftwmode self); simpl;
    [apply pyfftw_ifftn_size|apply ifftn_size]; exact Hw.
Qed.

Lemma in_bounds_le (ds P : list Z) idx :
  Forall2 Z.le ds P ->
  np.in_bounds (List.map Z.to_nat ds) idx ->
  np.in_bounds (List.map Z.to_nat P) idx.
Proof.
  intros Hle. revert idx.
  induction Hle as [|d p ds P Hd Hle IH]; intros idx Hb;
    inversion Hb as [|i n idx' s Hi Hb']; subst; constructor.
  - lia.
  - apply IH. exact Hb'.
Qed.

(** X6. Lines 76, 83-87 and 116-122.  After the constructor and any sequence
    of calls the draw counter is one plus the number of calls, and the
    random stream stands where one plus as many draws of two arrays of the
    padded size leave it: a call of either operation consumes the same part
    of the stream.  The last-result slot holds the result of the last call,
    the constructor's own draw if there was none. *)
Theorem calls_counted e ds cm per pf sd r c :
  spec.valid_grid_shape ds -> spec.valid_seed sd ->
  covariance cm = Some c ->
  (per = false -> find_maximum_range cm = Some r /\ (0 <= r)%Q) ->
  exists self,
    __init__ e ds cm per pf sd = Some self /\
    forall calls, exists ys self',
      run calls self = Some (ys, self') /\
      length ys = length calls /\
      counter self' = (1 + Z.of_nat (length calls))%Z /\
      rng self' =
        advance_n (S (length calls)) (seeded e sd)
          (List.map Z.to_nat (spec.paddedSize per ds r)) /\
      Y self' = last (List.map Some ys) (Y self).
Proof.
  intros Hv Hsd Hc Hr.
  destruct (@init_built _ _ _ e ds cm per pf sd r c Hv Hsd Hc Hr)
    as (A & B & _ & _ & Hlo & Hinit).
  cbv zeta in Hlo, Hinit.
  eexists. split; [exact Hinit|].
  intros calls.
  destruct (run_ok calls (laid_out_set_draw 1%Z
              (advance (seeded e sd)
                 (shape (sqrtFFTQ (before_draw e ds cm per pf sd r c
                    (wrapped_grid (spec.paddedSize per ds r))
                    (lag_sq_grid (spec.paddedSize per ds r))))))
              (mk_ndarray (2%nat :: List.map Z.to_nat ds) (data A ++ data B))
              Hlo))
    as (ys & self' & Hrun & _ & _).
  exists ys, self'. split; [exact Hrun|].
  destruct (run_counts _ _ Hrun) as (Hl & Hcn & Hg & _ & HY).
  split; [exact Hl|]. split; [exact Hcn|]. split; [|exact HY].
  rewrite Hg. reflexivity.
Qed.

(** X7. Lines 78-136.  A call reads the spectral standard deviation, the
    random stream, the element count, the two mode flags, the stored
    extents, the cutoff and the number of axes, and nothing else: on two
    generators that agree on these (whatever their draw counters,
    last-result slots, seeds, model strings, grids, lags, covariances and
    plotting coordinates) either operation raises on both or returns the
    same array on both, and leaves them in agreement again. *)
Theorem calls_read_only (a b : spectral_random_field) (c : call) :
  reads_alike a b ->
  match do_call c a, do_call c b with
  | Some (ya, a'), Some (yb, b') => ya = yb /\ reads_alike a' b'
  | None, None => True
  | _, _ => False
  end.
Proof.
  intros (H1 & H2 & H3 & H4 & H5 & H6 & H7 & H8).
  assert (Hn : shaped_noise a = shaped_noise b).
  { unfold shaped_noise. rewrite H1, H2. reflexivity. }
  assert (Hcrop : forall y, crop a y = crop b y).
  { intros y. unfold crop. rewrite H6, H7, H8. reflexivity. }
  assert (Ht : forall y, times_npoints a y = times_npoints b y).
  { intros y. unfold times_npoints. rewrite H3. reflexivity. }
  destruct c; cbn [do_call].
  - unfold simnew. rewrite Hn, H4, H5.
    destruct (shaped_noise b) as [[rand g]|]; cbn [bind]; [|exact I].
    destruct (pyfftwmode b) eqn:Epf; cbv beta iota zeta; rewrite !Ht, ?Hcrop;
      destruct (negb (periodic b)); cbn [bind]; split_binds;
      first [ exact I
            | split; [reflexivity|];
              repeat split;
              first [assumption | cbn [pyfftwmode set_draw]; congruence] ].
  - unfold simnew_real. rewrite Hn, H4, H5.
    destruct (shaped_noise b) as [[rand g]|]; cbn [bind]; [|exact I].
    destruct (pyfftwmode b) eqn:Epf; cbv beta iota zeta; rewrite !Ht, ?Hcrop;
      destruct (negb (periodic b)); cbn [bind]; split_binds;
      first [ exact I
            | split; [reflexivity|];
              repeat split;
              first [assumption | cbn [pyfftwmode set_draw]; congruence] ].
Qed.

(** X8. Lines 33-46, 61-67 and 97-104.  Two non-periodic generators built
    with one model, one backend and one seed for two requested extents that
    pad to the same size return, call by call, fields that hold the same
    values wherever both grids have a point: the field for the smaller grid
    is the corner of the field for the larger one. *)
Theorem same_padding_same_values e1 e2 ds1 ds2 cm pf (s : Z) r c
    (calls : list call) :
  spec.valid_grid_shape ds1 -> spec.valid_grid_shape ds2 -> (0 <= s)%Z ->
  covariance cm = Some c ->
  find_maximum_range cm = Some r -> (0 <= r)%Q ->
  spec.paddedSize false ds1 r = spec.paddedSize false ds2 r ->
  exists g1 g2 ys1 s1 ys2 s2,
    __init__ e1 ds1 cm false pf (Some s) = Some g1 /\
    __init__ e2 ds2 cm false pf (Some s) = Some g2 /\
    run calls g1 = Some (ys1, s1) /\ run calls g2 = Some (ys2, s2) /\
    Forall2
      (fun k yy =>
         agree (List.map Z.to_nat ds1) (List.map Z.to_nat ds2) k
           (fst yy) (snd yy))
      calls (combine ys1 ys2).
Proof.
  intros Hv1 Hv2 Hs Hc Hr Hr0 HP.
  destruct (@init_built _ _ _ e1 ds1 cm false pf (Some s) r c Hv1 Hs Hc)
    as (A1 & B1 & _ & _ & Hlo1 & Hinit1); [auto|].
  destruct (@init_built _ _ _ e2 ds2 cm false pf (Some s) r c Hv2 Hs Hc)
    as (A2 & B2 & _ & _ & Hlo2 & Hinit2); [auto|].
  cbv zeta in Hlo1, Hinit1, Hlo2, Hinit2.
  rewrite Hinit1, Hinit2.
  match goal with
  | |- context [Some ?x = Some _ /\ Some ?y = Some _ /\ _] =>
      destruct (@run_agrees ds1 ds2 calls x y)
        as (ys1 & s1 & ys2 & s2 & Hr1 & Hr2 & Hall)
  end.
  - exact Hlo1.
  - exact Hlo2.
  - unfold same_spectrum.
    cbn [sqrtFFTQ rng npoints pyfftwmode set_draw before_draw].
    rewrite HP. repeat split; reflexivity.
  - discriminate.
  - discriminate.
  - eexists. eexists. exists ys1, s1, ys2, s2.
    split; [reflexivity|]. split; [reflexivity|].
    split; [exact Hr1|]. split; [exact Hr2|exact Hall].
Qed.

(** X9. Lines 33-46, 61-67 and 97-104.  With shape-preserving transforms, a
    non-periodic generator for the extent [ds] computes what the periodic
    generator for its padded size computes: both have one spectral standard
    deviation, and call by call the non-periodic result holds, at every
    point of the requested grid, the value the periodic result holds
    there. *)
Theorem padded_torus {TS : transform_sizes} e1 e2 ds cm pf (s : Z) r c
    (calls : list call) :
  spec.valid_grid_shape ds -> (0 <= s)%Z ->
  covariance cm = Some c ->
  find_maximum_range cm = Some r -> (0 <= r)%Q ->
  exists g gp ys s1 ysp s2,
    __init__ e1 ds cm false pf (Some s) = Some g /\
    __init__ e2 (spec.paddedSize false ds r) cm true pf (Some s) = Some gp /\
    sqrtFFTQ g = sqrtFFTQ gp /\
    run calls g = Some (ys, s1) /\ run calls gp = Some (ysp, s2) /\
    Forall2
      (fun k yy =>
         agree (List.map Z.to_nat ds) (List.map Z.to_nat ds) k
           (fst yy) (snd yy))
      calls (combine ys ysp).
Proof.
  intros Hv Hs Hc Hr Hr0.
  set (P := spec.paddedSize false ds r).
  assert (HvP : spec.valid_grid_shape P).
  { destruct Hv as [Hne Hpos]. split.
    - unfold P. simpl. destruct ds; [congruence|discriminate].
    - apply padded_positive; auto. }
  assert (Hle : Forall2 Z.le ds P) by (apply padded_ge; exact Hr0).
  destruct (@init_built _ _ _ e1 ds cm false pf (Some s) r c Hv Hs Hc)
    as (A1 & B1 & _ & _ & Hlo1 & Hinit1); [auto|].
  destruct (@init_built _ _ _ e2 P cm true pf (Some s) r c HvP Hs Hc)
    as (A2 & B2 & _ & _ & Hlo2 & Hinit2); [discriminate|].
  cbv zeta in Hlo1, Hinit1, Hlo2, Hinit2.
  rewrite Hinit1, Hinit2.
  match goal with
  | |- context [Some ?x = Some _ /\ Some ?y = Some _ /\ _] =>
      destruct (@run_agrees ds P calls x y)
        as (ys1 & s1 & ys2 & s2 & Hr1 & Hr2 & Hall)
  end.
  - exact Hlo1.
  - exact Hlo2.
  - unfold same_spectrum.
    cbn [sqrtFFTQ rng npoints pyfftwmode set_draw before_draw].
    repeat split; reflexivity.
  - discriminate.
  - intros _. apply transformed_wf.
  - eexists. eexists. exists ys1, s1, ys2, s2.
    split; [reflexivity|]. split; [reflexivity|].
    split; [reflexivity|].
    split; [exact Hr1|]. split; [exact Hr2|].
    eapply Forall2_impl; [|exact Hall].
    intros k yy Hag. destruct k; cbn [agree] in *.
    + intros j idx Hj Hi _. apply Hag; [exact Hj|exact Hi|].
      apply (in_bounds_le Hle). exact Hi.
    + intros idx Hi _. apply Hag; [exact Hi|].
      apply (in_bounds_le Hle). exact Hi.
Qed.

(** X10. Lines 85-106 and 119-134.  With shape-preserving transforms, the
    values a call returns.  The two normal arrays are drawn one after the
    other from the stream, in the shape of the padded grid; the noise at a
    point of the padded grid is the complex number made of the two draws at
    that point, times the spectral standard deviation at that point; and at
    every point of the requested grid the single field, which is the first
    field of the pair, holds the real part of the inverse transform at that
    point times the element count, and the second field of the pair the
    imaginary part times the element count. *)
Theorem field_entries {TS : transform_sizes} ds self :
  laid_out ds self ->
  let s := shape (sqrtFFTQ self) in
  let re := standard_normal (rng self) s in
  let im := standard_normal (snd re) s in
  exists rand A B,
    shape rand = s /\
    (forall idx, np.in_bounds s idx ->
       np.get zeroc rand idx =
       cmultiply (complex_ (np.get zero32 (fst re) idx)
                    (np.get zero32 (fst im) idx))
         (np.get zero64 (sqrtFFTQ self) idx)) /\
    let T := transformed self rand in
    let Y' := mk_ndarray (2%nat :: List.map Z.to_nat ds) (data A ++ data B) in
    simnew_real self =
      Some (A, set_draw self (counter self + 1)%Z (snd im) A) /\
    simnew self =
      Some (Y', set_draw self (counter self + 1)%Z (snd im) Y') /\
    forall idx, np.in_bounds (List.map Z.to_nat ds) idx ->
      np.get zero64 A idx =
        multiply (real (np.get zeroc T idx)) (float_ (npoints self)) /\
      np.get zero64 B idx =
        multiply (imag (np.get zeroc T idx)) (float_ (npoints self)).
Proof.
  intros Hlo. cbv zeta.
  destruct (shaped_noise_entries self) as (rand & Hn & Hs & Hget).
  cbv zeta in Hn, Hs, Hget.
  destruct (call_entries Hlo (fun _ => transformed_wf self))
    as (rand' & A & B & Hn' & _ & _ & _ & _ & Hent & Hsim & Hreal).
  cbv zeta in Hent, Hsim, Hreal.
  rewrite Hn in Hn'. injection Hn' as <-.
  exists rand, A, B.
  split; [exact Hs|]. split; [exact Hget|].
  split; [exact Hreal|]. split; [exact Hsim|].
  intros idx Hidx.
  destruct (Hent idx Hidx) as [-> ->].
  assert (Hw : np.wf rand).
  { destruct (shaped_noise_ok self) as (r2 & Hn2 & _ & Hw2).
    rewrite Hn in Hn2. injection Hn2 as <-. exact Hw2. }
  pose proof (transformed_wf self Hw) as HwT.
  assert (HsT : shape (transformed self rand) = shape (sqrtFFTQ self)).
  { unfold transformed. destruct (pyfftwmode self); simpl; exact Hs. }
  assert (Hin : np.in_bounds (shape (transformed self rand)) idx).
  { rewrite HsT.
    pose proof Hlo as (_ & _ & _ & _ & Hstd & Hcut). rewrite Hstd.
    destruct (periodic self).
    - rewrite Hcut. exact Hidx.
    - destruct Hcut as (_ & _ & _ & Hle). exact (in_bounds_le Hle Hidx). }
  unfold times_npoints.
  rewrite (get_map zero64) by (try apply wf_map; assumption).
  rewrite (get_map zeroc) by assumption.
  rewrite (get_map zero64) by (try apply wf_map; assumption).
  rewrite (get_map zeroc) by assumption.
  split; reflexivity.
Qed.

End Calls.
End call_behaviour.

(** ** The sizes of the binary64 transforms *)

Module binary64_sizes.

Lemma sizes : @transform_sizes binary64.NP binary64.FW.
Proof.
  split; intros s l _;
    cbn [ifftn_data pyfftw_ifftn_data binary64.NP binary64.FW];
    unfold binary64.backward, binary64.dft; rewrite !length_map;
    apply np_facts.length_ndindex.
Qed.

End binary64_sizes.

(** ** The theorems at work on the executable instance *)

Module examples.
Import spectralsim generator spectralsim_spec.

#[local] Existing Instance binary64.NP.
#[local] Existing Instance binary64.CF.
#[local] Existing Instance binary64.FW.

Abbreviation init := (@__init__ binary64.NP binary64.CF binary64.FW).

(** The model at work. *)

Example padder_2_3 : cutoffs [2; 3]%Z 3%Q = [6; 5]%Z.
Proof. reflexivity. Qed.

Example padder_exact_multiple : m8 8 0 = 8%Z /\ m8 8 (1 # 1000) = 16%Z.
Proof. split; reflexivity. Qed.

Example built_2_3 :
  option_map
    (fun s => (counter s, cutoff s, domainsize s, ndim s, npoints s,
               shape (sqrtFFTQ s), option_map (fun y => shape y) (Y s)))
    (init 0%Z [2; 3]%Z binary64.sph3 false false (Some 42%Z))
  = Some (1%Z, np.array [6; 5]%Z, mk_ndarray [2; 1; 1]%nat [8; 8]%Z, 2%nat,
          64%Z, [8; 8]%nat, Some [2; 2; 3]%nat).
Proof. vm_compute. reflexivity. Qed.

Example lags_periodic_4 :
  option_map (fun s => (cutoff s, data (h s)))
    (init 0%Z [4]%Z binary64.sph3 true false None)
  = Some (np.scalar 0%Z, [0; 1; 2; 1]%float).
Proof. vm_compute. reflexivity. Qed.

Example single_field_4 :
  option_map (fun s => option_map (fun r => (shape (fst r), counter (snd r)))
                         (simnew_real s))
    (init 0%Z [4]%Z binary64.sph3 false true (Some 7%Z))
  = Some (Some ([4]%nat, 2%Z)).
Proof. vm_compute. reflexivity. Qed.

Example crop_first_entries :
  bind (init 0%Z [2; 3]%Z binary64.sph3 false false (Some 42%Z))
    (fun self =>
       option_map (fun y => (shape y, data y))
         (crop self
            (mk_ndarray [8; 8]%nat
               (List.map (fun i => binary64.of_Z (Z.of_nat i)) (seq 0 64)))))
  = Some ([2; 3]%nat, [0; 1; 2; 8; 9; 10]%float).
Proof. vm_compute. reflexivity. Qed.

Example pair_then_single_2_3 :
  bind (init 0%Z [2; 3]%Z binary64.sph3 true false (Some 42%Z))
    (fun self =>
       option_map
         (fun r => (List.map (fun y => shape y) (fst r), counter (snd r)))
         (run [call_simnew; call_simnew_real] self))
  = Some ([[2; 2; 3]; [2; 3]]%nat, 3%Z).
Proof. vm_compute. reflexivity. Qed.

Example negative_seed_raises :
  option_map counter (init 0%Z [4]%Z binary64.sph3 true false (Some (-1)%Z))
  = None.
Proof. vm_compute. reflexivity. Qed.

Example unknown_model_raises :
  option_map counter (init 0%Z [4]%Z binary64.sph25 true false None)
  = Some 1%Z /\
  option_map counter (init 0%Z [4]%Z binary64.unknown true false None)
  = None.
Proof. split; vm_compute; reflexivity. Qed.

Lemma grid_2_3 : spec.valid_grid_shape [2; 3]%Z.
Proof. split; [discriminate|]. repeat constructor. Qed.

Lemma range_3 :
  false = false ->
  @find_maximum_range binary64.NP binary64.CF binary64.sph3 = Some 3%Q /\
  (0 <= 3)%Q.
Proof. intros _. split; [reflexivity|discriminate]. Qed.


Lemma padded_size_periodic_witness :
  exists self,
    init 0%Z [2; 3]%Z binary64.sph3 true false (Some 42%Z) = Some self /\
    cutoff self = np.scalar 0%Z /\ data (domainsize self) = [2; 3]%Z.
Proof.
  destruct (@padded_size_periodic binary64.NP binary64.CF binary64.FW
              0%Z [2; 3]%Z binary64.sph3 false (Some 42%Z)
              (binary64.spherical 1 3))
    as (self & Hinit & Hcut & _ & Hdom & _).
  - split; [discriminate|]. repeat constructor.
  - first [exact I | discriminate].
  - reflexivity.
  - exists self. repeat split; assumption.
Defined.


Lemma spectral_std_dev_witness :
  exists self,
    init 0%Z [2; 3]%Z binary64.sph3 false false (Some 42%Z) = Some self /\
    npoints self = 64%Z /\
    Forall (fun x => PrimFloat.ltb x 0 = false) (data (sqrtFFTQ self)).
Proof.
  destruct (@spectral_std_dev binary64.NP binary64.CF binary64.FW
              binary64_order.order
              0%Z [2; 3]%Z binary64.sph3 false false (Some 42%Z) 3%Q
              (binary64.spherical 1 3))
    as (self & Hinit & _ & _ & _ & Hn & _ & _ & _ & _ & Hneg).
  - split; [discriminate|]. repeat constructor.
  - first [exact I | discriminate].
  - reflexivity.
  - intros _. split; [reflexivity|discriminate].
  - exists self. split; [exact Hinit|]. split; [exact Hn|exact Hneg].
Defined.

Lemma shape_law_witness :
  exists self ys self',
    init 0%Z [2; 3]%Z binary64.sph3 false false (Some 42%Z) = Some self /\
    run [call_simnew; call_simnew_real] self = Some (ys, self') /\
    Forall2 (returned_shape [2; 3]%Z) [call_simnew; call_simnew_real] ys.
Proof.
  destruct (@shape_law binary64.NP binary64.CF binary64.FW
              0%Z [2; 3]%Z binary64.sph3 false false (Some 42%Z) 3%Q
              (binary64.spherical 1 3))
    as (self & Y0 & Hinit & _ & _ & Hrun & _).
  - split; [discriminate|]. repeat constructor.
  - first [exact I | discriminate].
  - reflexivity.
  - intros _. split; [reflexivity|discriminate].
  - destruct (Hrun [call_simnew; call_simnew_real]) as (ys & self' & H1 & H2).
    exists self, ys, self'. repeat split; assumption.
Defined.

Lemma construction_draws_once_witness :
  exists self Y0,
    init 0%Z [2; 3]%Z binary64.sph3 true true None = Some self /\
    counter self = 1%Z /\ Y self = Some Y0.
Proof.
  destruct (@construction_draws_once binary64.NP binary64.CF binary64.FW
              0%Z [2; 3]%Z binary64.sph3 true true None 0%Q
              (binary64.spherical 1 3))
    as (self0 & self & Y0 & Hinit & _ & _ & _ & _ & Hc & HY & _).
  - split; [discriminate|]. repeat constructor.
  - first [exact I | discriminate].
  - reflexivity.
  - discriminate.
  - exists self, Y0. repeat split; assumption.
Defined.

Lemma stored_domainsize_witness :
  exists self,
    init 0%Z [4]%Z binary64.sph3 false false (Some 7%Z) = Some self /\
    shape (domainsize self) = [1; 1]%nat /\
    np.binop 0%Z 0%Z Z.sub (np.squeeze (domainsize self)) (cutoff self)
      = Some (np.array [4]%Z).
Proof.
  destruct (@stored_domainsize binary64.NP binary64.CF binary64.FW
              0%Z [4]%Z binary64.sph3 false false (Some 7%Z) 3%Q
              (binary64.spherical 1 3))
    as (self & v & Hinit & Hs & _ & _ & Hv & _ & Hper).
  - split; [discriminate|]. repeat constructor.
  - first [exact I | discriminate].
  - reflexivity.
  - intros _. split; [reflexivity|discriminate].
  - exists self. split; [exact Hinit|]. split; [exact Hs|].
    destruct (Hper eq_refl) as (-> & _). exact Hv.
Defined.

Lemma generator_2_3 :
  exists self0 self Y0,
    init 0%Z [2; 3]%Z binary64.sph3 false true (Some 42%Z) = Some self /\
    simnew self0 = Some (Y0, self) /\ laid_out [2; 3]%Z self.
Proof.
  destruct (@lifecycle.init_ok binary64.NP binary64.CF binary64.FW
              0%Z [2; 3]%Z binary64.sph3 false true (Some 42%Z) 3%Q
              (binary64.spherical 1 3) grid_2_3 (Zle_0_pos 42) eq_refl range_3)
    as (grid & sq & A & B & _ & _ & _ & _ & Hlo & Hsim & Hinit).
  cbv zeta in Hlo, Hsim, Hinit.
  eexists. eexists. eexists. split; [exact Hinit|]. split; [exact Hsim|].
  exact Hlo.
Qed.

Lemma synthesis_frame_witness :
  exists self Y' self',
    simnew_real self = Some (Y', self') /\
    counter self' = (counter self + 1)%Z /\ sqrtFFTQ self' = sqrtFFTQ self.
Proof.
  destruct generator_2_3 as (_ & self & _ & _ & _ & Hlo).
  destruct (calls.simnew_ok Hlo) as (A & B & _ & _ & _ & Hreal).
  cbv zeta in Hreal.
  destruct (@synthesis_frame binary64.NP binary64.FW _ _ _ (or_intror Hreal))
    as (Hc & _ & _ & Hs & _).
  eexists. eexists. eexists. split; [exact Hreal|]. split; assumption.
Defined.

Lemma simnew_real_is_field_A_witness :
  exists self Y' self1 A self2,
    simnew self = Some (Y', self1) /\
    simnew_real self = Some (A, self2) /\
    shape Y' = 2%nat :: shape A /\ rng self2 = rng self1.
Proof.
  destruct generator_2_3 as (_ & self & _ & _ & _ & Hlo).
  destruct (calls.simnew_ok Hlo) as (A0 & B0 & _ & _ & Hsim & _).
  cbv zeta in Hsim.
  destruct (simnew_real_is_field_A _ Hsim)
    as (rand & A & B & _ & _ & _ & Hs & _ & _ & Hreal & _).
  eexists. eexists. eexists. eexists. eexists.
  split; [exact Hsim|]. split; [exact Hreal|]. split; [exact Hs|reflexivity].
Defined.

End examples.

(** ** The further behaviour at work on the executable instance *)

Module behaviour_examples.
Import spectralsim generator behaviour constructor_behaviour call_behaviour.

#[local] Existing Instance binary64.NP.
#[local] Existing Instance binary64.CF.
#[local] Existing Instance binary64.FW.

Abbreviation init := (@__init__ binary64.NP binary64.CF binary64.FW).

Example xyz_2_1_2 :
  option_map (fun s => option_map (fun a => (shape a, data a)) (xyz s))
    (init 0%Z [2; 1; 2]%Z binary64.sph3 true false None)
  = Some (Some ([4; 3]%nat,
                [0; 0; 0;  0; 0; 1;  1; 0; 0;  1; 0; 1]%Z)).
Proof. vm_compute. reflexivity. Qed.

Example xyz_unset_2_3 :
  option_map (fun s => option_map (fun a => shape a) (xyz s))
    (init 0%Z [2; 3]%Z binary64.sph3 true false None)
  = Some None.
Proof. vm_compute. reflexivity. Qed.

Example grid_periodic_4_3 :
  option_map (fun s => (shape (grid s), data (grid s)))
    (init 0%Z [4; 3]%Z binary64.sph3 true false None)
  = Some ([2; 4; 3]%nat,
          [0; 0; 0;  1; 1; 1;  2; 2; 2;  1; 1; 1;
           0; 1; 1;  0; 1; 1;  0; 1; 1;  0; 1; 1]%Z).
Proof. vm_compute. reflexivity. Qed.

Example reflect_8_8 :
  reflect [true; false] [8; 8]%Z [3; 5]%nat = [5; 5]%nat /\
  reflect [true; true] [8; 8]%Z [0; 5]%nat = [0; 3]%nat.
Proof. split; reflexivity. Qed.

Example corner_of_the_larger_grid :
  let small :=
    bind (init 0%Z [2]%Z binary64.sph3 false false (Some 5%Z))
      (fun s => option_map (fun r => data (fst r)) (simnew_real s)) in
  let large :=
    bind (init 1%Z [4]%Z binary64.sph3 false false (Some 5%Z))
      (fun s => option_map (fun r => data (fst r)) (simnew_real s)) in
  option_map (fun l => length l) small = Some 2%nat /\
  option_map (fun l => length l) large = Some 4%nat /\
  small = option_map (firstn 2) large.
Proof. vm_compute. repeat split; reflexivity. Qed.

Example corner_of_the_torus :
  let cropped :=
    bind (init 0%Z [2]%Z binary64.sph3 false false (Some 5%Z))
      (fun s => option_map (fun r => data (fst r)) (simnew s)) in
  let torus :=
    bind (init 1%Z [8]%Z binary64.sph3 true false (Some 5%Z))
      (fun s => option_map (fun r => data (fst r)) (simnew s)) in
  option_map (fun l => length l) cropped = Some 4%nat /\
  option_map (fun l => length l) torus = Some 16%nat /\
  cropped =
    option_map (fun l => firstn 2 l ++ firstn 2 (skipn 8 l)) torus.
Proof. vm_compute. repeat split; reflexivity. Qed.

Lemma grid_2_1_2 : spec.valid_grid_shape [2; 1; 2]%Z.
Proof. split; [discriminate|]. repeat constructor. Qed.

Lemma grid_a : spec.valid_grid_shape [2; 3]%Z.
Proof. split; [discriminate|]. repeat constructor. Qed.

Lemma grid_b : spec.valid_grid_shape [3; 4]%Z.
Proof. split; [discriminate|]. repeat constructor. Qed.

Lemma range_of_sph3 :
  false = false ->
  @find_maximum_range binary64.NP binary64.CF binary64.sph3 = Some 3%Q /\
  (0 <= 3)%Q.
Proof. intros _. split; [reflexivity|discriminate]. Qed.

Lemma plotting_coordinates_witness :
  exists self a,
    init 0%Z [2; 1; 2]%Z binary64.sph3 true false None = Some self /\
    xyz self = Some a /\ shape a = [4; 3]%nat.
Proof.
  destruct (@plotting_coordinates binary64.NP binary64.CF binary64.FW
              0%Z [2; 1; 2]%Z binary64.sph3 true false None 0%Q
              (binary64.spherical 1 3))
    as (self & Hinit & _ & H3).
  - exact grid_2_1_2.
  - exact I.
  - reflexivity.
  - discriminate.
  - destruct (H3 eq_refl) as (a & Ha & Hs & _).
    exists self, a. split; [exact Hinit|]. split; [exact Ha|exact Hs].
Defined.

Lemma wrapped_coordinates_witness :
  exists self,
    init 0%Z [2; 3]%Z binary64.sph3 false false (Some 42%Z) = Some self /\
    spec.extents (grid self) = [2; 8; 8]%Z.
Proof.
  destruct (@wrapped_coordinates binary64.NP binary64.CF binary64.FW
              0%Z [2; 3]%Z binary64.sph3 false false (Some 42%Z) 3%Q
              (binary64.spherical 1 3))
    as (self & Hinit & Hext & _).
  - exact grid_a.
  - discriminate.
  - reflexivity.
  - exact range_of_sph3.
  - exists self. split; [exact Hinit|exact Hext].
Defined.

Lemma lag_symmetry_witness :
  exists self,
    init 0%Z [2; 3]%Z binary64.sph3 false false (Some 42%Z) = Some self /\
    np.get 0%float (h self) (reflect [true; true] [8; 8]%Z [0; 0]%nat)
    = np.get 0%float (h self) [0; 0]%nat.
Proof.
  destruct (@lag_symmetry binary64.NP binary64.CF binary64.FW
              0%Z [2; 3]%Z binary64.sph3 false false (Some 42%Z) 3%Q
              (binary64.spherical 1 3))
    as (self & Hinit & Hsym & Hb & _).
  - exact grid_a.
  - discriminate.
  - reflexivity.
  - exact range_of_sph3.
  - exists self. split; [exact Hinit|].
    exact (proj2 (Hsym [true; true] [0; 0]%nat Hb)).
Defined.


Lemma constructor_returns_iff_witness :
  (exists self, init 0%Z [2; 3]%Z binary64.sph3 false false (Some 42%Z)
                = Some self) /\
  ~ (exists self, init 0%Z [2; 3]%Z binary64.sph3 false false (Some (-1)%Z)
                  = Some self).
Proof.
  assert (Hr : forall r : QArith_base.Q,
            @find_maximum_range binary64.NP binary64.CF binary64.sph3 = Some r ->
            (0 <= r)%Q).
  { intros r H. injection H as <-. discriminate. }
  split.
  - apply (proj2 (@constructor_returns_iff binary64.NP binary64.CF binary64.FW
                    0%Z [2; 3]%Z binary64.sph3 false false (Some 42%Z)
                    grid_a Hr)).
    split; [eexists; reflexivity|]. split; [discriminate|].
    intros _. eexists. reflexivity.
  - intros H.
    apply (proj1 (@constructor_returns_iff binary64.NP binary64.CF binary64.FW
                    0%Z [2; 3]%Z binary64.sph3 false false (Some (-1)%Z)
                    grid_a Hr)) in H.
    destruct H as (_ & Hs & _). apply Hs. reflexivity.
Defined.

Lemma calls_counted_witness :
  exists self ys self',
    init 0%Z [2; 3]%Z binary64.sph3 false false (Some 42%Z) = Some self /\
    run [call_simnew; call_simnew_real] self = Some (ys, self') /\
    counter self' = 3%Z.
Proof.
  destruct (@calls_counted binary64.NP binary64.CF binary64.FW
              0%Z [2; 3]%Z binary64.sph3 false false (Some 42%Z) 3%Q
              (binary64.spherical 1 3))
    as (self & Hinit & Hcalls).
  - exact grid_a.
  - discriminate.
  - reflexivity.
  - exact range_of_sph3.
  - destruct (Hcalls [call_simnew; call_simnew_real])
      as (ys & self' & Hrun & _ & Hc & _).
    exists self, ys, self'. split; [exact Hinit|]. split; [exact Hrun|exact Hc].
Defined.

Lemma generator_a :
  exists self,
    init 0%Z [2; 3]%Z binary64.sph3 false true (Some 42%Z) = Some self /\
    laid_out [2; 3]%Z self.
Proof.
  destruct (@closed_form.init_built binary64.NP binary64.CF binary64.FW
              0%Z [2; 3]%Z binary64.sph3 false true (Some 42%Z) 3%Q
              (binary64.spherical 1 3) grid_a (Zle_0_pos 42) eq_refl
              range_of_sph3)
    as (A & B & _ & _ & Hlo & Hinit).
  eexists. split; [exact Hinit|exact Hlo].
Qed.

Lemma calls_read_only_witness :
  exists a b,
    counter b = (counter a + 7)%Z /\
    match simnew_real a, simnew_real b with
    | Some (ya, _), Some (yb, _) => ya = yb
    | None, None => True
    | _, _ => False
    end.
Proof.
  destruct generator_a as (a & _ & _).
  exists a, (set_draw a (counter a + 7)%Z (rng a) (sqrtFFTQ a)).
  split; [reflexivity|].
  pose proof (@calls_read_only binary64.NP binary64.FW
                a (set_draw a (counter a + 7)%Z (rng a) (sqrtFFTQ a))
                call_simnew_real) as H.
  cbn [do_call] in H.
  destruct (simnew_real a) as [[ya a']|];
    destruct (simnew_real (set_draw a (counter a + 7)%Z (rng a) (sqrtFFTQ a)))
      as [[yb b']|].
  - apply H. repeat split.
  - apply H. repeat split.
  - apply H. repeat split.
  - exact I.
Defined.

Lemma same_padding_same_values_witness :
  exists g1 g2 ys1 s1 ys2 s2,
    init 0%Z [2; 3]%Z binary64.sph3 false false (Some 42%Z) = Some g1 /\
    init 1%Z [3; 4]%Z binary64.sph3 false false (Some 42%Z) = Some g2 /\
    run [call_simnew_real] g1 = Some (ys1, s1) /\
    run [call_simnew_real] g2 = Some (ys2, s2) /\
    Forall2
      (fun k yy =>
         agree [2; 3]%nat [3; 4]%nat k (fst yy) (snd yy))
      [call_simnew_real] (combine ys1 ys2).
Proof.
  apply (@same_padding_same_values binary64.NP binary64.CF binary64.FW
           0%Z 1%Z [2; 3]%Z [3; 4]%Z binary64.sph3 false 42%Z 3%Q
           (binary64.spherical 1 3) [call_simnew_real]).
  - exact grid_a.
  - exact grid_b.
  - discriminate.
  - reflexivity.
  - reflexivity.
  - discriminate.
  - reflexivity.
Defined.

Lemma padded_torus_witness :
  exists g gp ys s1 ysp s2,
    init 0%Z [2; 3]%Z binary64.sph3 false false (Some 42%Z) = Some g /\
    init 1%Z [8; 8]%Z binary64.sph3 true false (Some 42%Z) = Some gp /\
    sqrtFFTQ g = sqrtFFTQ gp /\
    run [call_simnew] g = Some (ys, s1) /\
    run [call_simnew] gp = Some (ysp, s2) /\
    Forall2
      (fun k yy => agree [2; 3]%nat [2; 3]%nat k (fst yy) (snd yy))
      [call_simnew] (combine ys ysp).
Proof.
  apply (@padded_torus binary64.NP binary64.CF binary64.FW
           binary64_sizes.sizes
           0%Z 1%Z [2; 3]%Z binary64.sph3 false 42%Z 3%Q
           (binary64.spherical 1 3) [call_simnew]).
  - exact grid_a.
  - discriminate.
  - reflexivity.
  - reflexivity.
  - discriminate.
Defined.

Lemma field_entries_witness :
  exists self rand A,
    laid_out [2; 3]%Z self /\
    shape rand = shape (sqrtFFTQ self) /\
    simnew_real self =
      Some (A, set_draw self (counter self + 1)%Z
                 (advance (rng self) (shape (sqrtFFTQ self))) A) /\
    np.get 0%float A [1; 2]%nat =
      PrimFloat.mul (fst (np.get (0, 0)%float (transformed self rand)
                            [1; 2]%nat))
        (binary64.of_Z (npoints self)).
Proof.
  destruct generator_a as (self & _ & Hlo).
  destruct (@field_entries binary64.NP binary64.FW binary64_sizes.sizes
              [2; 3]%Z self Hlo)
    as (rand & A & B & Hs & _ & Hreal & _ & Hent).
  exists self, rand, A.
  split; [exact Hlo|]. split; [exact Hs|]. split; [exact Hreal|].
  apply Hent. constructor; [lia|]. constructor; [lia|]. constructor.
Defined.

End behaviour_examples.
